(** * Wavelink [Player]: a shallow embedding of [wavelink/player.py]

    The player is a per-guild proxy between a voice-enabled chat client
    (the host) and an audio node.  Python objects are modelled as records,
    Python dictionaries as finite maps with string keys, attribute
    mutation as explicit state passing and raised exceptions as a
    [Raise] outcome that leaves the mutations done so far in place. *)

From Stdlib Require Import ZArith QArith Qround Lqa DecimalString.
From stdpp Require Import gmap strings list fin_maps.

Set Warnings "-register-all".
Local Open Scope Z_scope.

(** ** Python values *)

(** The JSON-like values that travel through the player.  A [float] is
    an exact rational: binary rounding error is outside the model.
    Dictionaries have string keys, as every payload of the node protocol
    does; [PyStr] holds ASCII text. *)
Inductive pyval : Type :=
| PyNone
| PyBool (b : bool)
| PyInt (z : Z)
| PyFloat (q : Q)
| PyStr (s : string)
| PyList (l : list pyval)
| PyTuple (l : list pyval)
| PyDict (d : gmap string pyval).

Inductive exn : Type :=
| AttributeError (attr : string)
| KeyError (key : pyval)
| IndexError
| TypeError (msg : string)
| ValueError (msg : string)
| OverflowError (msg : string)
| TimestampError
| Exception (msg : string).

Inductive result (A : Type) : Type :=
| Ok (a : A)
| Raise (e : exn).
Arguments Ok {A} a.
Arguments Raise {A} e.

#[global] Instance result_ret : MRet result := fun A a => Ok a.
#[global] Instance result_bind : MBind result := fun A B f r =>
  match r with
  | Ok a => f a
  | Raise e => Raise e
  end.
#[global] Instance result_fmap : FMap result := fun A B f r =>
  match r with
  | Ok a => Ok (f a)
  | Raise e => Raise e
  end.

(** [str(n)] for an [int]. *)
Definition str (z : Z) : string := NilZero.string_of_int (Z.to_int z).

(** [type(v) is float] and [type(v) is list]. *)
Definition is_float (v : pyval) : bool :=
  match v with PyFloat _ => true | _ => false end.
Definition is_list (v : pyval) : bool :=
  match v with PyList _ => true | _ => false end.

(** [v[k]] for a string key [k]. *)
Definition getitem_key (v : pyval) (k : string) : result pyval :=
  match v with
  | PyDict d =>
      match d !! k with
      | Some x => Ok x
      | None => Raise (KeyError (PyStr k))
      end
  | PyList _ => Raise (TypeError "list indices must be integers or slices, not str")
  | PyTuple _ => Raise (TypeError "tuple indices must be integers or slices, not str")
  | PyStr _ => Raise (TypeError "string indices must be integers, not 'str'")
  | _ => Raise (TypeError "object is not subscriptable")
  end.

(** [v[i]] for the literal indices [0] and [1]. *)
Definition getitem_index (v : pyval) (i : nat) : result pyval :=
  match v with
  | PyList l | PyTuple l =>
      match l !! i with
      | Some x => Ok x
      | None => Raise IndexError
      end
  | PyStr s =>
      match String.get i s with
      | Some c => Ok (PyStr (String c EmptyString))
      | None => Raise IndexError
      end
  | PyDict _ => Raise (KeyError (PyInt (Z.of_nat i)))
  | _ => Raise (TypeError "object is not subscriptable")
  end.

(** [payload.update(v)]: the entries of [v] override those of [payload].
    [set_filters] only gets here with a value it has subscripted by a
    string before, that is, with a dictionary. *)
Definition dict_update (payload : gmap string pyval) (v : pyval)
  : result (gmap string pyval) :=
  match v with
  | PyDict d => Ok (d ∪ payload)
  | _ => Raise (TypeError "object is not iterable")
  end.

(** A call with keyword arguments [named] and a starred dictionary
    [extra]: a keyword given twice is a [TypeError]. *)
Definition call_kwargs (named extra : gmap string pyval)
  : result (gmap string pyval) :=
  if decide (named ##ₘ extra) then Ok (named ∪ extra)
  else Raise (TypeError "got multiple values for keyword argument").

(** [min(a, b)] on floats: [b] if [b < a], else [a]. *)
Definition py_min (a b : Q) : Q := if Qle_bool a b then a else b.

(** [round(x)] to the nearest integer, ties to even. *)
Definition round_half_even (x : Q) : Z :=
  let f := Qfloor x in
  match (x - inject_Z f ?= 1 # 2)%Q with
  | Lt => f
  | Gt => f + 1
  | Eq => if Z.even f then f else f + 1
  end.

(** [round(x, 1)], on the exact value: a decimal tie such as 0.35, which
    no binary float holds, is a tie here and goes to the even digit. *)
Definition py_round1 (x : Q) : Q := round_half_even (x * 10) # 10.

(** The least [int] whose quotient by 1000 rounds beyond the largest
    float: the floats end at [2^1024 - 2^971], and the quotient rounds
    up from [2^1024 - 2^970] on. *)
Definition float_overflow : Z := Eval vm_compute in (2 ^ 1024 - 2 ^ 970) * 1000.

(** [z / 1000] for an [int] [z].  True division gives a float, and raises
    [OverflowError] when the quotient is too large for one. *)
Definition truediv_1000 (z : Z) : result Q :=
  if Z.abs z <? float_overflow then Ok (z # 1000)
  else Raise (OverflowError "integer division result too large for a float").

(** [datetime.datetime.fromtimestamp(t, datetime.timezone.utc)], kept as
    the seconds since the epoch.  A [datetime] holds the years 1 to 9999
    only; [TimestampError] stands for what is raised outside them, a
    [ValueError], an [OSError] or an [OverflowError] by how far out the
    time lies and by the platform. *)
Definition fromtimestamp (t : Q) : result Q :=
  if Qle_bool (-62135596800) t && negb (Qle_bool 253402300800 t) then Ok t
  else Raise TimestampError.

(** [list.remove(x)]: drops the first occurrence, [None] when there is
    none (Python raises [ValueError]). *)
Fixpoint list_remove (x : nat) (l : list nat) : option (list nat) :=
  match l with
  | [] => None
  | y :: l' => if decide (x = y) then Some l' else (y ::.) <$> list_remove x l'
  end.

(** ** The player and its collaborators *)

(** Modelled from the spec: [abc.py], which declares [abc.Playable], is
    not among the sources; the spec gives the current source as an opaque
    identifier plus a duration, which [position] reads in seconds. *)
Record Playable := { track_id : string; duration : Q }.

(** Modelled from the spec: [tracks.py], which declares [PartialTrack],
    is not among the sources, and the spec leaves the resolution of a
    partial reference to the source itself.  [play] is given a resolved
    track or a [PartialTrack], which carries what its [_search()]
    yields. *)
Inductive Source :=
| Track (t : Playable)
| PartialTrack (found : result Playable).

(** A voice channel of the host: its id and the id of its guild. *)
Record VoiceChannel := { chan_id : Z; guild_id : Z }.

(** [guild.get_channel(id)]: the host resolves an id reported by the
    gateway to the channel of that guild. *)
Definition get_channel (guild : Z) (id : Z) : VoiceChannel :=
  {| chan_id := id; guild_id := guild |}.

(** The [channel_id] field of a voice-state payload: JSON null, the empty
    string, or the decimal string of a snowflake id. *)
Inductive channel_ref :=
| ChannelNull
| ChannelEmpty
| ChannelSnowflake (id : Z).

(** The payload of a voice-state notification. *)
Record VoiceStateData := {
  session_id : string;
  channel_id : channel_ref;
  other_fields : gmap string pyval
}.

Definition channel_ref_val (c : channel_ref) : pyval :=
  match c with
  | ChannelNull => PyNone
  | ChannelEmpty => PyStr ""
  | ChannelSnowflake id => PyStr (str id)
  end.

(** The payload as the dictionary the handler receives. *)
Definition data_dict (data : VoiceStateData) : pyval :=
  PyDict (<["session_id" := PyStr (session_id data)]>
          (<["channel_id" := channel_ref_val (channel_id data)]>
           (other_fields data))).

(** The attributes of a [Player].  [None] in [last_update] and
    [last_position] is the [MISSING] sentinel; [None] in [_connected]
    means the attribute has not been assigned. *)
Record Player := {
  self : nat;
  channel : VoiceChannel;
  _voice_state : gmap string pyval;
  last_update : option Q;
  last_position : option Q;
  volume : Z;
  _paused : bool;
  _source : option Playable;
  _connected : option bool
}.

(** What the player acts on: the messages sent over the node's websocket
    (oldest first), the node's player list, the voice requests made to
    the host, and how often [VoiceProtocol.cleanup] has run. *)
Record World := {
  sent : list (gmap string pyval);
  players : list nat;
  voice_requests : list (option VoiceChannel);
  cleanups : nat
}.

Definition set_channel (c : VoiceChannel) (p : Player) : Player :=
  {| self := self p; channel := c; _voice_state := _voice_state p;
     last_update := last_update p; last_position := last_position p;
     volume := volume p; _paused := _paused p; _source := _source p;
     _connected := _connected p |}.
Definition set_voice_state (vs : gmap string pyval) (p : Player) : Player :=
  {| self := self p; channel := channel p; _voice_state := vs;
     last_update := last_update p; last_position := last_position p;
     volume := volume p; _paused := _paused p; _source := _source p;
     _connected := _connected p |}.
Definition set_last_update (lu : Q) (p : Player) : Player :=
  {| self := self p; channel := channel p; _voice_state := _voice_state p;
     last_update := Some lu; last_position := last_position p;
     volume := volume p; _paused := _paused p; _source := _source p;
     _connected := _connected p |}.
Definition set_last_position (lp : Q) (p : Player) : Player :=
  {| self := self p; channel := channel p; _voice_state := _voice_state p;
     last_update := last_update p; last_position := Some lp;
     volume := volume p; _paused := _paused p; _source := _source p;
     _connected := _connected p |}.
Definition set_tracker (lu lp : Q) (p : Player) : Player :=
  set_last_position lp (set_last_update lu p).
Definition set_volume_attr (v : Z) (p : Player) : Player :=
  {| self := self p; channel := channel p; _voice_state := _voice_state p;
     last_update := last_update p; last_position := last_position p;
     volume := v; _paused := _paused p; _source := _source p;
     _connected := _connected p |}.
Definition set_paused (b : bool) (p : Player) : Player :=
  {| self := self p; channel := channel p; _voice_state := _voice_state p;
     last_update := last_update p; last_position := last_position p;
     volume := volume p; _paused := b; _source := _source p;
     _connected := _connected p |}.
Definition set_source (s : option Playable) (p : Player) : Player :=
  {| self := self p; channel := channel p; _voice_state := _voice_state p;
     last_update := last_update p; last_position := last_position p;
     volume := volume p; _paused := _paused p; _source := s;
     _connected := _connected p |}.
Definition set_connected (b : bool) (p : Player) : Player :=
  {| self := self p; channel := channel p; _voice_state := _voice_state p;
     last_update := last_update p; last_position := last_position p;
     volume := volume p; _paused := _paused p; _source := _source p;
     _connected := Some b |}.

(** ** Methods as state-passing computations *)

(** A method body: it reads and mutates the player and the world and
    either returns or raises. *)
Definition M (A : Type) : Type := Player -> World -> result A * Player * World.

Definition ret {A} (a : A) : M A := fun p w => (Ok a, p, w).
Definition raise {A} (e : exn) : M A := fun p w => (Raise e, p, w).
Definition bind {A B} (m : M A) (k : A -> M B) : M B := fun p w =>
  match m p w with
  | (Ok a, p', w') => k a p' w'
  | (Raise e, p', w') => (Raise e, p', w')
  end.
Definition lift {A} (r : result A) : M A := fun p w => (r, p, w).
Definition get : M Player := fun p w => (Ok p, p, w).
Definition modify (f : Player -> Player) : M unit := fun p w => (Ok tt, f p, w).

Notation "'do' x <- m ; k" := (bind m (fun x => k))
  (at level 10, x name, m at level 100, k at level 200, only parsing).

(** [try: body finally: fin].  [fin] always runs; if it raises, its
    exception replaces the outcome of [body]. *)
Definition try_finally {A} (body : M A) (fin : M unit) : M A := fun p w =>
  match body p w with
  | (r, p', w') =>
      match fin p' w' with
      | (Ok _, p'', w'') => (r, p'', w'')
      | (Raise e, p'', w'') => (Raise e, p'', w'')
      end
  end.

(** The world once [payload] has gone over the websocket. *)
Definition add_sent (payload : gmap string pyval) (w : World) : World :=
  {| sent := sent w ++ [payload]; players := players w;
     voice_requests := voice_requests w; cleanups := cleanups w |}.

(** [await self.node._websocket.send] with [payload] as its keywords.
    The connection is taken to deliver: a failing transport is outside
    the model. *)
Definition send (payload : gmap string pyval) : M unit := fun p w =>
  (Ok tt, p, add_sent payload w).

(** [await self.guild.change_voice_state(channel=c)]: the request is made
    to the host, which answers with [reply]. *)
Definition change_voice_state (reply : result unit) (c : option VoiceChannel)
  : M unit := fun p w =>
  (reply, p,
   {| sent := sent w; players := players w;
      voice_requests := voice_requests w ++ [c]; cleanups := cleanups w |}).

(** Modelled from the spec: [pool.py], which declares the node, is not
    among the sources.  The spec gives [node.players] as a mutable
    collection supporting append and remove; it is the list [__init__]
    appends the player to, and [self.node.players.remove(self)] raises
    when the player is not in it. *)
Definition players_remove : M unit := fun p w =>
  match list_remove (self p) (players w) with
  | Some l =>
      (Ok tt, p,
       {| sent := sent w; players := l;
          voice_requests := voice_requests w; cleanups := cleanups w |})
  | None => (Raise (ValueError "list.remove(x): x not in list"), p, w)
  end.

(** [self.cleanup()], inherited from the host's [VoiceProtocol]. *)
Definition cleanup : M unit := fun p w =>
  (Ok tt, p,
   {| sent := sent w; players := players w;
      voice_requests := voice_requests w; cleanups := S (cleanups w) |}).

(** [Player.__init__]: the new player registers itself with its node. *)
Definition __init__ (id : nat) (c : VoiceChannel) (w : World) : Player * World :=
  ({| self := id; channel := c; _voice_state := ∅;
      last_update := None; last_position := None;
      volume := 100; _paused := false; _source := None;
      _connected := None |},
   {| sent := sent w; players := players w ++ [id];
      voice_requests := voice_requests w; cleanups := cleanups w |}).

(** [str(self.guild.id)]. *)
Definition guildId (p : Player) : pyval := PyStr (str (guild_id (channel p))).

Definition is_connected (p : Player) : result bool :=
  match _connected p with
  | Some b => Ok b
  | None => Raise (AttributeError "_connected")
  end.

Definition is_playing (p : Player) : result bool :=
  c ← is_connected p;
  Ok (c && bool_decide (_source p ≠ None)).

Definition is_paused (p : Player) : bool := _paused p.

(** Modelled from the spec: [utils.py], which declares [MISSING], is not
    among the sources; it is a sentinel that is no number, so arithmetic
    and comparison on it raise [TypeError]. *)
Definition number (a : option Q) : result Q :=
  match a with
  | Some x => Ok x
  | None => Raise (TypeError "unsupported operand type: _MissingSentinel")
  end.

(** [self.source.duration]. *)
Definition source_duration (p : Player) : result Q :=
  match _source p with
  | Some s => Ok (duration s)
  | None => Raise (AttributeError "duration")
  end.

(** The [position] property; [now] is the clock reading, in seconds. *)
Definition position (now : Q) (p : Player) : result Q :=
  playing ← is_playing p;
  if negb playing then Ok 0%Q
  else if is_paused p then
    lp ← number (last_position p);
    d ← source_duration p;
    Ok (py_min lp d)
  else
    lu ← number (last_update p);
    lp ← number (last_position p);
    let delta := (now - lu)%Q in
    let position := py_round1 (lp + delta) in
    d ← source_duration p;
    Ok (py_min position d).

(** [update_state]: [time] and [position] are the millisecond fields of
    the node's state, absent ones default to [0].  The two attributes are
    assigned one after the other, and either right-hand side can raise. *)
Definition update_state (time pos : option Z) : M unit :=
  do t <- lift (truediv_1000 (default 0 time)) ;
  do lu <- lift (fromtimestamp t) ;
  do _ <- modify (set_last_update lu) ;
  do x <- lift (truediv_1000 (default 0 pos)) ;
  modify (set_last_position (py_round1 x)).

(** *** Voice handshake *)

(** [_dispatch_voice_update(voice_state)]: the guard reads the player's
    own mapping, the message is built from the argument. *)
Definition _dispatch_voice_update (voice_state : gmap string pyval) : M unit :=
  do p <- get ;
  if bool_decide (({["sessionId"; "event"]} : gset string) = dom (_voice_state p))
  then
    do payload <- lift (call_kwargs
                       (<["op" := PyStr "voiceUpdate"]>
                        (<["guildId" := guildId p]> ∅))
                       voice_state) ;
    send payload
  else ret tt.

Definition on_voice_server_update (data : pyval) : M unit :=
  do _ <- modify (fun p => set_voice_state (<["event" := data]> (_voice_state p)) p) ;
  do p <- get ;
  _dispatch_voice_update (_voice_state p).

Definition on_voice_state_update (data : VoiceStateData) : M unit :=
  do _ <- modify (fun p =>
         set_voice_state
           (<["sessionId" := PyStr (session_id data)]> (_voice_state p)) p) ;
  match channel_id data with
  | ChannelNull | ChannelEmpty =>
      do _ <- modify (set_voice_state ∅) ;
      ret tt
  | ChannelSnowflake id =>
      do _ <- modify (fun p => set_channel (get_channel (guild_id (channel p)) id) p) ;
      do p <- get ;
      _dispatch_voice_update (<["event" := data_dict data]> (_voice_state p))
  end.

(** *** Connection life cycle *)

(** [reply] is what the host answers to the voice request. *)
Definition connect (reply : result unit) : M unit :=
  do p <- get ;
  do _ <- change_voice_state reply (Some (channel p)) ;
  modify (set_connected true).

Definition disconnect (reply : result unit) (force : bool) : M unit :=
  try_finally
    (do _ <- change_voice_state reply None ;
     modify (set_connected false))
    (do _ <- players_remove ;
     cleanup).

Definition move_to (reply : result unit) (c : VoiceChannel) : M unit :=
  change_voice_state reply (Some c).

(** *** Playback *)

(** [play] returns [None] when it does nothing, else the track that is
    now playing. *)
Definition play (source : Source) (replace : bool) (start end_ : Z)
  : M (option Playable) :=
  do p <- get ;
  do go <- lift (if replace then Ok true else negb <$> is_playing p) ;
  if go then
    do _ <- update_state None None ;
    do _ <- modify (set_paused false) ;
    do source <- lift (match source with
                    | Track t => Ok t
                    | PartialTrack found => found
                    end) ;
    do _ <- modify (set_source (Some source)) ;
    do p <- get ;
    let payload : gmap string pyval :=
      <["startTime" := PyStr (str start)]>
      (<["noReplace" := PyBool (negb replace)]>
       (<["track" := PyStr (track_id source)]>
        (<["guildId" := guildId p]>
         (<["op" := PyStr "play"]> ∅)))) in
    let payload :=
      if 0 <? end_ then <["endTime" := PyStr (str end_)]> payload
      else payload in
    do _ <- send payload ;
    ret (Some source)
  else ret None.

Definition stop : M unit :=
  do p <- get ;
  do _ <- send (<["op" := PyStr "stop"]> (<["guildId" := guildId p]> ∅)) ;
  modify (set_source None).

Definition set_pause (pause : bool) : M unit :=
  do p <- get ;
  do _ <- send (<["op" := PyStr "pause"]>
             (<["guildId" := guildId p]>
              (<["pause" := PyBool pause]> ∅))) ;
  modify (set_paused pause).

Definition set_volume (v : Z) : M unit :=
  do _ <- modify (set_volume_attr (Z.max (Z.min v 1000) 0)) ;
  do p <- get ;
  send (<["op" := PyStr "volume"]>
        (<["guildId" := guildId p]>
         (<["volume" := PyInt (volume p)]> ∅))).

Definition seek (pos : Z) : M unit :=
  do p <- get ;
  send (<["op" := PyStr "seek"]>
        (<["guildId" := guildId p]>
         (<["position" := PyInt pos]> ∅))).

(** [pause] and [resume] are [set_pause] at a fixed flag. *)
Definition pause : M unit := set_pause true.
Definition resume : M unit := set_pause false.

(** *** Filters *)

(** The keyword arguments of [set_filters]; an argument left out is
    [PyNone]. *)
Record filter_args := {
  equalizerjson : pyval;
  karaokejson : pyval;
  timescalejson : pyval;
  tremolojson : pyval;
  vibratojson : pyval;
  rotationjson : pyval;
  distortionjson : pyval;
  channelMixjson : pyval;
  lowPassjson : pyval
}.

Definition no_filters : filter_args :=
  {| equalizerjson := PyNone; karaokejson := PyNone; timescalejson := PyNone;
     tremolojson := PyNone; vibratojson := PyNone; rotationjson := PyNone;
     distortionjson := PyNone; channelMixjson := PyNone; lowPassjson := PyNone |}.

(** One step of the comprehension over [levels]: the dictionary with
    [band] bound to [i[0]] and [gain] bound to [i[1]]. *)
Definition band_of (i : pyval) : result pyval :=
  b ← getitem_index i 0;
  g ← getitem_index i 1;
  Ok (PyDict (<["band" := b]> (<["gain" := g]> ∅))).

Fixpoint bands_of (levels : list pyval) : result (list pyval) :=
  match levels with
  | [] => Ok []
  | i :: rest =>
      b ← band_of i;
      bs ← bands_of rest;
      Ok (b :: bs)
  end.

(** [if type(equalizerjson) is list: ...]. *)
Definition normalize_equalizer (v : pyval) : result pyval :=
  match v with
  | PyList levels =>
      bs ← bands_of levels;
      Ok (PyDict {["equalizer" := PyList bs]})
  | _ => Ok v
  end.

(** [if type(v) is float: v = {outer: {inner: v}}], for rotation and
    low pass. *)
Definition normalize_float (outer inner : string) (v : pyval) : pyval :=
  match v with
  | PyFloat _ => PyDict {[outer := PyDict {[inner := v]}]}
  | _ => v
  end.

(** The [or]-chain of a bundle's check, left to right:
    [type(json[name][f]) is not float] for each required field [f],
    stopping at the first that holds. *)
Fixpoint any_not_float (json : pyval) (name : string) (fields : list string)
  : result bool :=
  match fields with
  | [] => Ok false
  | f :: rest =>
      bundle ← getitem_key json name;
      v ← getitem_key bundle f;
      if is_float v then any_not_float json name rest else Ok true
  end.

(** A bundle of float fields: its key, its required fields, the message
    of its error, and the argument it was given as. *)
Record bundle := {
  bundle_name : string;
  bundle_fields : list string;
  bundle_error : string;
  bundle_json : pyval
}.

(** [if json is not None: if <check>: raise Exception(...);
    payload.update(json)]. *)
Definition merge_bundle (payload : gmap string pyval) (b : bundle)
  : result (gmap string pyval) :=
  match bundle_json b with
  | PyNone => Ok payload
  | json =>
      deformed ← any_not_float json (bundle_name b) (bundle_fields b);
      if deformed : bool then Raise (Exception (bundle_error b))
      else dict_update payload json
  end.

Definition merge_equalizer (payload : gmap string pyval) (json : pyval)
  : result (gmap string pyval) :=
  match json with
  | PyNone => Ok payload
  | _ =>
      v ← getitem_key json "equalizer";
      if is_list v then dict_update payload json
      else Raise (Exception "Deformed equalizerjson")
  end.

Fixpoint merge_bundles (payload : gmap string pyval) (bs : list bundle)
  : result (gmap string pyval) :=
  match bs with
  | [] => Ok payload
  | b :: rest =>
      payload ← merge_bundle payload b;
      merge_bundles payload rest
  end.

(** The eight float bundles in the order [set_filters] checks them, with
    the shorthand forms of rotation and low pass already replaced. *)
Definition float_bundles (a : filter_args) : list bundle :=
  [ {| bundle_name := "karaoke";
       bundle_fields := ["level"; "monoLevel"; "filterBand"; "filterWidth"];
       bundle_error := "Deformed karaokejson";
       bundle_json := karaokejson a |};
    {| bundle_name := "timescale";
       bundle_fields := ["speed"; "pitch"; "rate"];
       bundle_error := "Deformed timescalejson";
       bundle_json := timescalejson a |};
    {| bundle_name := "tremolo";
       bundle_fields := ["frequency"; "depth"];
       bundle_error := "Deformed tremolojson";
       bundle_json := tremolojson a |};
    {| bundle_name := "vibrato";
       bundle_fields := ["frequency"; "depth"];
       bundle_error := "Deformed vibratojson";
       bundle_json := vibratojson a |};
    {| bundle_name := "rotation";
       bundle_fields := ["rotationHz"];
       bundle_error := "Deformed rotationjson";
       bundle_json := normalize_float "rotation" "rotationHz" (rotationjson a) |};
    {| bundle_name := "distortion";
       bundle_fields := ["sinOffset"; "sinScale"; "cosOffset"; "cosScale";
                         "tanOffset"; "tanScale"; "offset"; "scale"];
       bundle_error := "Deformed distortionjson";
       bundle_json := distortionjson a |};
    {| bundle_name := "channelMix";
       bundle_fields := ["leftToLeft"; "leftToRight"; "rightToLeft"; "rightToRight"];
       bundle_error := "Deformed channelMix";
       bundle_json := channelMixjson a |};
    {| bundle_name := "lowPass";
       bundle_fields := ["smoothing"];
       bundle_error := "Deformed lowPassjson";
       bundle_json := normalize_float "lowPass" "smoothing" (lowPassjson a) |} ].

(** The head of every filters message. *)
Definition filters_head (p : Player) : gmap string pyval :=
  <["op" := PyStr "filters"]> (<["guildId" := guildId p]> ∅).

(** Everything [set_filters] does before the send. *)
Definition filters_payload (p : Player) (a : filter_args)
  : result (gmap string pyval) :=
  equalizerjson ← normalize_equalizer (equalizerjson a);
  payload ← merge_equalizer (filters_head p) equalizerjson;
  merge_bundles payload (float_bundles a).

Definition set_filters (a : filter_args) : M unit :=
  do p <- get ;
  do payload <- lift (filters_payload p a) ;
  send payload.

(** The single-bundle operations. *)
Definition set_equalizer (json : pyval) : M unit :=
  set_filters
    {| equalizerjson := json; karaokejson := PyNone; timescalejson := PyNone;
       tremolojson := PyNone; vibratojson := PyNone; rotationjson := PyNone;
       distortionjson := PyNone; channelMixjson := PyNone; lowPassjson := PyNone |}.
Definition set_karaoke (json : pyval) : M unit :=
  set_filters
    {| equalizerjson := PyNone; karaokejson := json; timescalejson := PyNone;
       tremolojson := PyNone; vibratojson := PyNone; rotationjson := PyNone;
       distortionjson := PyNone; channelMixjson := PyNone; lowPassjson := PyNone |}.
Definition set_timescale (json : pyval) : M unit :=
  set_filters
    {| equalizerjson := PyNone; karaokejson := PyNone; timescalejson := json;
       tremolojson := PyNone; vibratojson := PyNone; rotationjson := PyNone;
       distortionjson := PyNone; channelMixjson := PyNone; lowPassjson := PyNone |}.
Definition set_tremolo (json : pyval) : M unit :=
  set_filters
    {| equalizerjson := PyNone; karaokejson := PyNone; timescalejson := PyNone;
       tremolojson := json; vibratojson := PyNone; rotationjson := PyNone;
       distortionjson := PyNone; channelMixjson := PyNone; lowPassjson := PyNone |}.
Definition set_vibrato (json : pyval) : M unit :=
  set_filters
    {| equalizerjson := PyNone; karaokejson := PyNone; timescalejson := PyNone;
       tremolojson := PyNone; vibratojson := json; rotationjson := PyNone;
       distortionjson := PyNone; channelMixjson := PyNone; lowPassjson := PyNone |}.
Definition set_rotation (json : pyval) : M unit :=
  set_filters
    {| equalizerjson := PyNone; karaokejson := PyNone; timescalejson := PyNone;
       tremolojson := PyNone; vibratojson := PyNone; rotationjson := json;
       distortionjson := PyNone; channelMixjson := PyNone; lowPassjson := PyNone |}.
Definition set_distortion (json : pyval) : M unit :=
  set_filters
    {| equalizerjson := PyNone; karaokejson := PyNone; timescalejson := PyNone;
       tremolojson := PyNone; vibratojson := PyNone; rotationjson := PyNone;
       distortionjson := json; channelMixjson := PyNone; lowPassjson := PyNone |}.
Definition set_channelMix (json : pyval) : M unit :=
  set_filters
    {| equalizerjson := PyNone; karaokejson := PyNone; timescalejson := PyNone;
       tremolojson := PyNone; vibratojson := PyNone; rotationjson := PyNone;
       distortionjson := PyNone; channelMixjson := json; lowPassjson := PyNone |}.
Definition set_lowPass (json : pyval) : M unit :=
  set_filters
    {| equalizerjson := PyNone; karaokejson := PyNone; timescalejson := PyNone;
       tremolojson := PyNone; vibratojson := PyNone; rotationjson := PyNone;
       distortionjson := PyNone; channelMixjson := PyNone; lowPassjson := json |}.

(** ** Runs of the player *)

(** The two voice notifications of the host. *)
Inductive notification :=
| ServerUpdate (data : pyval)
| StateUpdate (data : VoiceStateData).

Definition notify (n : notification) : M unit :=
  match n with
  | ServerUpdate data => on_voice_server_update data
  | StateUpdate data => on_voice_state_update data
  end.

(** A call of one of the player's methods, with what its collaborators
    answer. *)
Inductive call :=
| Call_update_state (time pos : option Z)
| Call_notify (n : notification)
| Call_connect (reply : result unit)
| Call_disconnect (reply : result unit) (force : bool)
| Call_move_to (reply : result unit) (c : VoiceChannel)
| Call_play (source : Source) (replace : bool) (start end_ : Z)
| Call_stop
| Call_set_pause (pause : bool)
| Call_set_volume (v : Z)
| Call_seek (pos : Z)
| Call_set_filters (a : filter_args).

Definition discard {A} (m : M A) : M unit := do _ <- m ; ret tt.

Definition exec (c : call) : M unit :=
  match c with
  | Call_update_state time pos => update_state time pos
  | Call_notify n => notify n
  | Call_connect reply => connect reply
  | Call_disconnect reply force => disconnect reply force
  | Call_move_to reply c => move_to reply c
  | Call_play source replace start end_ => discard (play source replace start end_)
  | Call_stop => stop
  | Call_set_pause pause => set_pause pause
  | Call_set_volume v => set_volume v
  | Call_seek pos => seek pos
  | Call_set_filters a => set_filters a
  end.

(** A caller makes the calls one after the other; a call that raises
    leaves the player as it was at the raise and the caller goes on. *)
Fixpoint exec_all (cs : list call) (p : Player) (w : World) : Player * World :=
  match cs with
  | [] => (p, w)
  | c :: rest =>
      match exec c p w with
      | (_, p', w') => exec_all rest p' w'
      end
  end.

Definition idle : World :=
  {| sent := []; players := []; voice_requests := []; cleanups := 0 |}.

(** The player after [__init__] and the calls [cs], and its world. *)
Definition after (id : nat) (c : VoiceChannel) (cs : list call) : Player * World :=
  match __init__ id c idle with
  | (p, w) => exec_all cs p w
  end.

(** Which calls assign the [_connected] attribute. *)
Definition assigns_connected (c : call) : bool :=
  match c with
  | Call_connect _ | Call_disconnect _ _ => true
  | _ => false
  end.

(** The three parts of what a method body yields. *)
Definition outcome {A} (r : result A * Player * World) : result A := r.1.1.
Definition player_of {A} (r : result A * Player * World) : Player := r.1.2.
Definition world_of {A} (r : result A * Player * World) : World := r.2.

(** ** Spec-side definitions *)

(** [clamp(v, lo, hi)] as the specification words it. *)
Definition clamp (v lo hi : Z) : Z :=
  if v <? lo then lo else if hi <? v then hi else v.

(** A bundle passes the specification's table when it is a dictionary
    that holds, under its name, a dictionary giving every required field
    a float. *)
Definition bundle_ok (b : bundle) : Prop :=
  ∃ d inner,
    bundle_json b = PyDict d ∧
    d !! bundle_name b = Some (PyDict inner) ∧
    ∀ f, f ∈ bundle_fields b → ∃ q, inner !! f = Some (PyFloat q).

(** What [set_filters] asks of the equalizer bundle: a dictionary that
    holds a list under [equalizer]. *)
Definition equalizer_ok (json : pyval) : Prop :=
  ∃ d l, json = PyDict d ∧ d !! "equalizer" = Some (PyList l).

(** The fragments a notification merges into the voice-state mapping. *)
Definition merge_fragment (n : notification) (vs : gmap string pyval)
  : gmap string pyval :=
  match n with
  | ServerUpdate data => <["event" := data]> vs
  | StateUpdate data => <["sessionId" := PyStr (session_id data)]> vs
  end.

(** Both handshake fragments are in the mapping. *)
Definition both_present (vs : gmap string pyval) : bool :=
  bool_decide (is_Some (vs !! "sessionId") ∧ is_Some (vs !! "event")).

(** A voice-state notification without a channel: the player has left. *)
Definition leaves_voice (n : notification) : bool :=
  match n with
  | StateUpdate data =>
      match channel_id data with
      | ChannelSnowflake _ => false
      | _ => true
      end
  | ServerUpdate _ => false
  end.

(** The mapping only ever holds the two fragments. *)
Definition fragments_only (p : Player) : Prop :=
  dom (_voice_state p) ⊆ ({["sessionId"; "event"]} : gset string).

(** [set_filters] with one keyword replaced. *)
Definition with_equalizer (v : pyval) (a : filter_args) : filter_args :=
  {| equalizerjson := v; karaokejson := karaokejson a;
     timescalejson := timescalejson a; tremolojson := tremolojson a;
     vibratojson := vibratojson a; rotationjson := rotationjson a;
     distortionjson := distortionjson a; channelMixjson := channelMixjson a;
     lowPassjson := lowPassjson a |}.
Definition with_rotation (v : pyval) (a : filter_args) : filter_args :=
  {| equalizerjson := equalizerjson a; karaokejson := karaokejson a;
     timescalejson := timescalejson a; tremolojson := tremolojson a;
     vibratojson := vibratojson a; rotationjson := v;
     distortionjson := distortionjson a; channelMixjson := channelMixjson a;
     lowPassjson := lowPassjson a |}.
Definition with_lowPass (v : pyval) (a : filter_args) : filter_args :=
  {| equalizerjson := equalizerjson a; karaokejson := karaokejson a;
     timescalejson := timescalejson a; tremolojson := tremolojson a;
     vibratojson := vibratojson a; rotationjson := rotationjson a;
     distortionjson := distortionjson a; channelMixjson := channelMixjson a;
     lowPassjson := v |}.

(** A [(band, gain)] pair as the tuple of the shorthand and as the
    dictionary of the canonical form. *)
Definition pair_tuple (bg : pyval * pyval) : pyval := PyTuple [bg.1; bg.2].
Definition band_dict (bg : pyval * pyval) : pyval :=
  PyDict (<["band" := bg.1]> (<["gain" := bg.2]> ∅)).

(** What a chain of [payload.update(json)] leaves, the dictionaries
    taken in order: a later one wins on a shared key. *)
Definition merge_all (payload : gmap string pyval) (jsons : list pyval)
  : gmap string pyval :=
  foldl (λ acc json, match json with PyDict d => d ∪ acc | _ => acc end)
        payload jsons.




Definition is_disconnect (c : call) : bool :=
  match c with Call_disconnect _ _ => true | _ => false end.


(** The calls that leave alone what [position] reads. *)
Definition keeps_position (c : call) : bool :=
  match c with
  | Call_notify _ | Call_move_to _ _ | Call_set_volume _ | Call_seek _
  | Call_set_filters _ => true
  | _ => false
  end.

(** The milliseconds that [datetime.fromtimestamp] takes, divided by
    1000: those of the years 1 to 9999. *)
Definition in_years (ms : Z) : bool :=
  (-62135596800000 <=? ms) && (ms <? 253402300800000).

(** The tracker has been set whenever a source is stored. *)
Definition tracked (p : Player) : Prop :=
  _source p ≠ None → is_Some (last_update p) ∧ is_Some (last_position p).

(** The calls that talk to the host only, or to nobody. *)
Definition silent (c : call) : bool :=
  match c with
  | Call_update_state _ _ | Call_connect _ | Call_disconnect _ _
  | Call_move_to _ _ => true
  | _ => false
  end.

(** ** Sample values *)

Definition lobby : VoiceChannel := {| chan_id := 7; guild_id := 42 |}.
Definition sourceA : Playable := {| track_id := "QAAAjA"; duration := 100 |}.
Definition sourceB : Playable := {| track_id := "QAAAkB"; duration := 30 |}.
Definition voice_state_data (c : channel_ref) : VoiceStateData :=
  {| session_id := "5e55"; channel_id := c; other_fields := ∅ |}.
Definition leave_failed : result unit := Raise (Exception "leave failed").

(** The karaoke bundle of the specification's example: [level] is the
    integer 1, the other fields are floats. *)
Definition karaoke_int_level : pyval :=
  PyDict {["karaoke" :=
             PyDict (<["level" := PyInt 1]>
                     (<["monoLevel" := PyFloat 1]>
                      (<["filterBand" := PyFloat 220]>
                       {["filterWidth" := PyFloat 100]})))]}.

(** * Properties *)

(** ** The steps of [update_state] *)

(** [update_state] stops before the first assignment, between the two,
    or returns with both done; it touches nothing else. *)
Lemma update_state_cases (time pos : option Z) (p : Player) (w : World) :
  (∃ e, update_state time pos p w = (Raise e, p, w))
  ∨ (∃ e lu, update_state time pos p w = (Raise e, set_last_update lu p, w))
  ∨ (∃ lu lp, update_state time pos p w = (Ok tt, set_tracker lu lp p, w)).
Proof.
  unfold update_state, bind, lift, modify.
  destruct (truediv_1000 (default 0 time)) as [t|e]; [|left; by exists e].
  destruct (fromtimestamp t) as [lu|e]; [|left; by exists e].
  destruct (truediv_1000 (default 0 pos)) as [x|e].
  - right; right. by exists lu, (py_round1 x).
  - right; left. by exists e, lu.
Qed.

(** The years a [datetime] holds, in milliseconds since the epoch. *)
Lemma in_years_spec (ms : Z) :
  in_years ms = true ↔ -62135596800000 <= ms < 253402300800000.
Proof. unfold in_years. rewrite andb_true_iff, Z.leb_le, Z.ltb_lt. done. Qed.

Lemma fromtimestamp_ms (ms : Z) :
  fromtimestamp (ms # 1000)
  = if in_years ms then Ok (ms # 1000) else Raise TimestampError.
Proof.
  unfold fromtimestamp, in_years, Qle_bool. cbn [Qnum Qden].
  replace (-62135596800 * 1000 <=? ms * 1) with (-62135596800000 <=? ms)
    by (destruct (Z.leb_spec (-62135596800000) ms),
          (Z.leb_spec (-62135596800 * 1000) (ms * 1)); lia).
  replace (253402300800 * 1000 <=? ms * 1) with (negb (ms <? 253402300800000))
    by (destruct (Z.ltb_spec ms 253402300800000),
          (Z.leb_spec (253402300800 * 1000) (ms * 1)); simpl; lia).
  by rewrite negb_involutive.
Qed.

(** Splits a goal on the three ways [update_state] can end. *)
Ltac update_state_steps time pos p w :=
  destruct (update_state_cases time pos p w)
    as [(? & ->) | [(? & ? & ->) | (? & ? & ->)]].

(** The call [play] makes, with an empty state. *)
Lemma update_state_epoch (p : Player) (w : World) :
  update_state None None p w
  = (Ok tt, set_tracker (0 # 1000) (py_round1 (0 # 1000)) p, w).
Proof. reflexivity. Qed.

(** ** Volume *)

Lemma max_min_clamp (v : Z) : Z.max (Z.min v 1000) 0 = clamp v 0 1000.
Proof. unfold clamp. repeat case_match; lia. Qed.

(** C4: for every integer [v], also below 0 and above 1000, a call of
    the volume setter stores clamp(v, 0, 1000), a value in [0, 1000], and
    the volume message sent to the node carries that value. *)
Theorem set_volume_clamps (v : Z) (p : Player) (w : World) :
  set_volume v p w =
    (Ok tt,
     set_volume_attr (clamp v 0 1000) p,
     add_sent (<["op" := PyStr "volume"]>
               (<["guildId" := guildId p]>
                (<["volume" := PyInt (clamp v 0 1000)]> ∅))) w)
  ∧ volume (player_of (set_volume v p w)) = clamp v 0 1000
  ∧ 0 <= volume (player_of (set_volume v p w)) <= 1000.
Proof.
  unfold set_volume, bind, modify, get, send, player_of; simpl.
  rewrite max_min_clamp. repeat split; unfold clamp; repeat case_match; lia.
Qed.

(** ** Playing without replacing *)

(** C8: while the player is playing, [play] with [replace=False] returns
    nothing, sends nothing and leaves every attribute of the player and
    the world as it was. *)
Theorem play_no_replace_noop
  (source : Source) (start end_ : Z) (p : Player) (w : World) :
  is_playing p = Ok true →
  play source false start end_ p w = (Ok None, p, w).
Proof.
  intros Hplaying. unfold play, bind, get, lift; simpl. by rewrite Hplaying.
Qed.

Lemma play_no_replace_noop_witness :
  let pw := after 1 lobby [Call_connect (Ok ()); Call_play (Track sourceA) true 0 0] in
  _source pw.1 = Some sourceA ∧
  play (Track sourceB) false 0 0 pw.1 pw.2 = (Ok None, pw.1, pw.2).
Proof.
  split; [reflexivity | apply play_no_replace_noop; reflexivity].
Defined.

(** ** The connected flag *)

Lemma dispatch_keeps_player (vs : gmap string pyval) (p : Player) (w : World) :
  player_of (_dispatch_voice_update vs p w) = p.
Proof.
  unfold _dispatch_voice_update, bind, get, lift, send, ret, player_of.
  simpl. case_bool_decide; [|done]. by destruct call_kwargs.
Qed.

Lemma set_filters_keeps_player (a : filter_args) (p : Player) (w : World) :
  player_of (set_filters a p w) = p.
Proof.
  unfold set_filters, bind, get, lift, send, player_of; simpl.
  by destruct filters_payload.
Qed.

(** No method but [connect] and [disconnect] touches [_connected]. *)
Lemma exec_keeps_connected (c : call) (p : Player) (w : World) :
  assigns_connected c = false →
  _connected (player_of (exec c p w)) = _connected p.
Proof.
  destruct c as [time pos|[data|data]| | | |source replace start end_| | | | |a];
    simpl; try done; intros _.
  - unfold discard, player_of. by update_state_steps time pos p w.
  - unfold on_voice_server_update, bind, modify, get.
    by rewrite dispatch_keeps_player.
  - unfold on_voice_state_update, bind, modify, get, ret.
    destruct (channel_id data); try done.
    by rewrite dispatch_keeps_player.
  - unfold discard, play, bind, get, lift, update_state, modify, send, ret, player_of.
    simpl. destruct replace; simpl.
    + destruct source as [t|[t|e]]; done.
    + destruct (is_playing p) as [[]|e]; simpl; try done.
      destruct source as [t|[t|e]]; done.
  - by rewrite set_filters_keeps_player.
Qed.

Lemma exec_all_keeps_connected (cs : list call) (p : Player) (w : World) :
  forallb (λ c, negb (assigns_connected c)) cs = true →
  _connected (exec_all cs p w).1 = _connected p.
Proof.
  revert p w. induction cs as [|c cs IH]; intros p w Hcs; [done|].
  simpl in Hcs. apply andb_prop in Hcs as [Hc Hcs].
  apply negb_true_iff in Hc. simpl.
  pose proof (exec_keeps_connected c p w Hc) as Hstep.
  destruct (exec c p w) as [[r p'] w']. rewrite IH; done.
Qed.

Lemma unassigned_raises (now : Q) (p : Player) :
  _connected p = None →
  is_connected p = Raise (AttributeError "_connected")
  ∧ is_playing p = Raise (AttributeError "_connected")
  ∧ position now p = Raise (AttributeError "_connected").
Proof.
  intros Hnone. unfold position, is_playing, is_connected. by rewrite Hnone.
Qed.

(** C10: on a player constructed by [__init__] on which neither
    [connect] nor [disconnect] has been called, whatever else has been
    called, the [_connected] attribute does not exist: [is_connected],
    [is_playing] and the [position] property raise [AttributeError]
    rather than returning false or 0. *)
Theorem connected_unassigned_before_connect
  (id : nat) (c : VoiceChannel) (cs : list call) (now : Q) :
  forallb (λ c, negb (assigns_connected c)) cs = true →
  let p := (after id c cs).1 in
  is_connected p = Raise (AttributeError "_connected")
  ∧ is_playing p = Raise (AttributeError "_connected")
  ∧ position now p = Raise (AttributeError "_connected").
Proof.
  intros Hcs p. apply unassigned_raises.
  subst p. unfold after. simpl. by rewrite exec_all_keeps_connected.
Qed.

Lemma connected_unassigned_before_connect_witness :
  let cs := [Call_set_volume 30; Call_play (Track sourceA) true 0 0] in
  let p := (after 1 lobby cs).1 in
  is_connected p = Raise (AttributeError "_connected")
  ∧ is_playing p = Raise (AttributeError "_connected")
  ∧ position 5 p = Raise (AttributeError "_connected").
Proof.
  apply (connected_unassigned_before_connect 1 lobby
           [Call_set_volume 30; Call_play (Track sourceA) true 0 0] 5).
  reflexivity.
Defined.

(** The first successful [connect] makes the queries total. *)
Lemma connected_after_connect (p : Player) (w : World) :
  is_connected (player_of (connect (Ok ()) p w)) = Ok true.
Proof. reflexivity. Qed.

(** ** Leaving the voice channel *)

(** C7: a voice-state notification whose channel id is null or empty
    clears the whole voice-state mapping, the session id it has just
    merged and any stored event included, sends nothing and leaves the
    channel alone; a voice-server notification that follows finds only its
    own fragment and sends nothing either. *)
Theorem state_update_without_channel_clears
  (data : VoiceStateData) (p : Player) (w : World) :
  channel_id data = ChannelNull ∨ channel_id data = ChannelEmpty →
  on_voice_state_update data p w = (Ok tt, set_voice_state ∅ p, w)
  ∧ ∀ event : pyval,
      on_voice_server_update event (set_voice_state ∅ p) w =
        (Ok tt, set_voice_state {["event" := event]} p, w).
Proof.
  intros Hleft. split.
  - unfold on_voice_state_update, bind, modify, ret.
    by destruct Hleft as [-> | ->].
  - intros event. reflexivity.
Qed.

Lemma state_update_without_channel_clears_witness :
  let pw := after 1 lobby [Call_notify (ServerUpdate (PyStr "token"))] in
  _voice_state pw.1 = {["event" := PyStr "token"]}
  ∧ on_voice_state_update (voice_state_data ChannelNull) pw.1 pw.2 =
      (Ok tt, set_voice_state ∅ pw.1, pw.2)
  ∧ sent (world_of (on_voice_server_update (PyStr "token")
                      (set_voice_state ∅ pw.1) pw.2)) = [].
Proof.
  split; [reflexivity|].
  destruct (state_update_without_channel_clears
              (voice_state_data ChannelNull)
              (after 1 lobby [Call_notify (ServerUpdate (PyStr "token"))]).1
              (after 1 lobby [Call_notify (ServerUpdate (PyStr "token"))]).2
              (or_introl eq_refl)) as [Hclear Hnext].
  split; [exact Hclear|].
  by rewrite (Hnext (PyStr "token")).
Defined.

(** ** Disconnecting *)

Lemma list_remove_first (x : nat) (l : list nat) :
  x ∈ l →
  ∃ l1 l2, l = l1 ++ (x :: l2) ∧ (x ∉ l1) ∧ list_remove x l = Some (l1 ++ l2).
Proof.
  induction l as [|y l IH]; intros Hin; [by apply elem_of_nil in Hin|].
  simpl. destruct (decide (x = y)) as [->|Hne].
  - exists [], l. split_and!; [done| |done]. apply not_elem_of_nil.
  - apply elem_of_cons in Hin as [?|Hin]; [done|].
    destruct (IH Hin) as (l1 & l2 & -> & Hl1 & ->).
    exists (y :: l1), l2. split_and!; [done| |done].
    rewrite not_elem_of_cons. done.
Qed.

Lemma list_remove_absent (x : nat) (l : list nat) :
  x ∉ l → list_remove x l = None.
Proof.
  induction l as [|y l IH]; [done|].
  rewrite not_elem_of_cons. intros [Hne Hl]. simpl.
  rewrite decide_False by done. by rewrite IH.
Qed.

(** C9, as amended: for every call of [disconnect] on a player that is
    in its node's player list, whatever the host answers to the request
    to leave, raising included, the first entry of the player is taken
    out of the list and the cleanup step runs before the call completes;
    the host's answer is the outcome of the call. *)
Theorem disconnect_cleans_up
  (reply : result unit) (force : bool) (p : Player) (w : World) :
  self p ∈ players w →
  let r := disconnect reply force p w in
  outcome r = reply
  ∧ (∃ l1 l2, players w = l1 ++ (self p :: l2) ∧ (self p ∉ l1)
              ∧ players (world_of r) = l1 ++ l2)
  ∧ (NoDup (players w) → self p ∉ players (world_of r))
  ∧ cleanups (world_of r) = S (cleanups w)
  ∧ voice_requests (world_of r) = voice_requests w ++ [None]
  ∧ sent (world_of r) = sent w.
Proof.
  intros Hin.
  destruct (list_remove_first _ _ Hin) as (l1 & l2 & Hl & Hl1 & Hrm).
  unfold disconnect, try_finally, bind, change_voice_state, modify,
    players_remove, cleanup, outcome, world_of.
  destruct reply as [[]|e]; simpl; rewrite Hrm; simpl.
  all: split_and!; try done; try by exists l1, l2.
  all: rewrite Hl; intros Hnd; apply NoDup_app in Hnd as (_ & Hdisj & Hnd);
    apply NoDup_cons in Hnd as [Hl2 _]; rewrite elem_of_app; tauto.
Qed.

Lemma disconnect_cleans_up_witness :
  let pw := after 1 lobby [Call_connect (Ok ())] in
  let r := disconnect leave_failed true pw.1 pw.2 in
  outcome r = leave_failed
  ∧ players (world_of r) = []
  ∧ cleanups (world_of r) = 1%nat.
Proof.
  assert (Hin : self (after 1 lobby [Call_connect (Ok ())]).1
                ∈ players (after 1 lobby [Call_connect (Ok ())]).2)
    by (simpl; constructor).
  destruct (disconnect_cleans_up leave_failed true _ _ Hin)
    as (Hout & _ & _ & Hclean & _).
  split_and!; [exact Hout | reflexivity | exact Hclean].
Defined.

(** C9 as stated fails on a player that is no longer in the list: the
    removal raises inside the [finally] block and the cleanup step is
    skipped.  Here a first [disconnect], whose leave request fails,
    deregisters the player; the retry raises [ValueError] and does not
    run the cleanup. *)
Lemma disconnect_cleans_up_counterexample :
  let pw := after 1 lobby [Call_connect (Ok ()); Call_disconnect leave_failed true] in
  let r := disconnect (Ok ()) true pw.1 pw.2 in
  outcome r = Raise (ValueError "list.remove(x): x not in list")
  ∧ cleanups (world_of r) = cleanups pw.2.
Proof. split; reflexivity. Qed.

(** ** Position *)

Lemma py_min_le_r (a b : Q) : (py_min a b <= b)%Q.
Proof.
  unfold py_min. destruct (Qle_bool a b) eqn:Hab.
  - by apply Qle_bool_iff.
  - apply Qle_refl.
Qed.

Lemma py_min_nonneg (a b : Q) : (0 <= a)%Q → (0 <= b)%Q → (0 <= py_min a b)%Q.
Proof. unfold py_min. by destruct (Qle_bool a b). Qed.

Lemma round_half_even_nonneg (x : Q) : (0 <= x)%Q → 0 <= round_half_even x.
Proof.
  intros Hx. unfold round_half_even.
  assert (0 <= Qfloor x) as Hfloor.
  { change 0 with (Qfloor (inject_Z 0)) at 1. by apply Qfloor_resp_le. }
  repeat case_match; lia.
Qed.

Lemma py_round1_nonneg (x : Q) : (0 <= x)%Q → (0 <= py_round1 x)%Q.
Proof.
  intros Hx. unfold py_round1.
  assert (0 <= round_half_even (x * 10)) as Hr.
  { apply round_half_even_nonneg. apply Qmult_le_0_compat; [done|]. by compute. }
  unfold Qle; simpl. lia.
Qed.

(** C3, as amended: [position] returns 0 when the player is not playing;
    when playing and paused it returns min(last_position, duration); when
    playing and not paused it returns last_position plus the seconds since
    last_update, rounded to one decimal and capped above at the duration.
    The value never exceeds the duration.  No lower bound is applied: the
    value is non-negative when last_position and the duration are, and
    last_update is not ahead of the clock. *)
Theorem position_capped_above (now : Q) (p : Player) :
  (is_playing p = Ok false → position now p = Ok 0%Q)
  ∧ ∀ lu lp : Q,
      is_playing p = Ok true →
      last_update p = Some lu →
      last_position p = Some lp →
      ∃ (src : Playable) (x : Q),
        _source p = Some src
        ∧ position now p = Ok x
        ∧ x = (if is_paused p then py_min lp (duration src)
               else py_min (py_round1 (lp + (now - lu))) (duration src))
        ∧ (x <= duration src)%Q
        ∧ ((0 <= lp)%Q → (0 <= duration src)%Q → (lu <= now)%Q → (0 <= x)%Q).
Proof.
  split.
  - intros Hidle. unfold position. by rewrite Hidle.
  - intros lu lp Hplaying Hlu Hlp.
    assert (∃ src, _source p = Some src) as [src Hsrc].
    { unfold is_playing, is_connected in Hplaying.
      destruct (_connected p) as [[]|]; simpl in Hplaying; try done.
      destruct (_source p) as [src|]; [by exists src|done]. }
    exists src. unfold position, source_duration, number.
    rewrite Hplaying, Hlu, Hlp, Hsrc; simpl.
    destruct (is_paused p); eexists; split_and!; try done.
    + apply py_min_le_r.
    + intros; by apply py_min_nonneg.
    + apply py_min_le_r.
    + intros Hlp0 Hd Hclock. apply py_min_nonneg; [|done].
      apply py_round1_nonneg. lra.
Qed.

Lemma position_capped_above_witness :
  let p := (after 1 lobby [Call_connect (Ok ());
                           Call_play (Track sourceA) true 0 0;
                           Call_update_state (Some 10000) (Some 2340)]).1 in
  position (25 # 2) (set_source None p) = Ok 0%Q
  ∧ ∃ x, position (25 # 2) p = Ok x ∧ (x <= 100)%Q ∧ (0 <= x)%Q.
Proof.
  intros p.
  destruct (position_capped_above (25 # 2) (set_source None p)) as [Hidle _].
  destruct (position_capped_above (25 # 2) p) as [_ Hplaying].
  destruct (Hplaying (10000 # 1000)%Q (23 # 10)%Q eq_refl eq_refl eq_refl)
    as (src & x & Hsrc & Hpos & _ & Hle & Hge).
  injection Hsrc as <-.
  split; [exact (Hidle eq_refl)|].
  exists x. split_and!; [exact Hpos | exact Hle |].
  apply Hge; by compute.
Defined.

(** C3 as stated fails on the lower bound.  The node's clock, which
    stamps [last_update], may be ahead of the local one: with the state
    stamped at 10 s and read at 5 s the position is -5 seconds. *)
Lemma position_capped_above_counterexample :
  let p := (after 1 lobby [Call_connect (Ok ());
                           Call_play (Track sourceA) true 0 0;
                           Call_update_state (Some 10000) (Some 0)]).1 in
  is_playing p = Ok true ∧ is_paused p = false
  ∧ ∃ x, position 5 p = Ok x ∧ (x == -5)%Q ∧ (x < 0)%Q.
Proof.
  split_and!; [reflexivity..|].
  eexists. split_and!; [reflexivity| |]; by compute.
Qed.

(** ** Voice handshake *)

Lemma insert_fragment (k : string) (v : pyval) (m : gmap string pyval) :
  k ∈ ({["sessionId"; "event"]} : gset string) →
  dom m ⊆ ({["sessionId"; "event"]} : gset string) →
  dom (<[k := v]> m) ⊆ ({["sessionId"; "event"]} : gset string).
Proof.
  intros Hk Hm. rewrite dom_insert_L. apply union_least; [|done].
  by apply singleton_subseteq_l.
Qed.

Lemma sessionId_fragment : "sessionId" ∈ ({["sessionId"; "event"]} : gset string).
Proof. apply elem_of_union_l. by apply elem_of_singleton. Qed.

Lemma event_fragment : "event" ∈ ({["sessionId"; "event"]} : gset string).
Proof. apply elem_of_union_r. by apply elem_of_singleton. Qed.

Lemma keys_complete (m : gmap string pyval) :
  dom m ⊆ ({["sessionId"; "event"]} : gset string) →
  ({["sessionId"; "event"]} : gset string) = dom m
  ↔ is_Some (m !! "sessionId") ∧ is_Some (m !! "event").
Proof.
  intros Hsub. rewrite <- !elem_of_dom. split.
  - intros <-. auto using sessionId_fragment, event_fragment.
  - intros [Hs He]. apply set_eq. intros k. split; [|by apply Hsub].
    rewrite elem_of_union, !elem_of_singleton. by intros [-> | ->].
Qed.

Lemma both_present_guard (m : gmap string pyval) :
  dom m ⊆ ({["sessionId"; "event"]} : gset string) →
  bool_decide (({["sessionId"; "event"]} : gset string) = dom m) = both_present m.
Proof.
  intros Hsub. unfold both_present. apply bool_decide_ext. by apply keys_complete.
Qed.

(** The head of a voice update never collides with the fragments. *)
Lemma voice_update_kwargs (g : pyval) (m : gmap string pyval) :
  dom m ⊆ ({["sessionId"; "event"]} : gset string) →
  call_kwargs (<["op" := PyStr "voiceUpdate"]> (<["guildId" := g]> ∅)) m
  = Ok (<["op" := PyStr "voiceUpdate"]> (<["guildId" := g]> ∅) ∪ m).
Proof.
  intros Hsub. unfold call_kwargs. rewrite decide_True; [done|].
  apply map_disjoint_dom. rewrite !dom_insert_L, dom_empty_L.
  intros k Hk Hm. apply Hsub in Hm.
  rewrite !elem_of_union, !elem_of_singleton, elem_of_empty in Hk.
  rewrite elem_of_union, !elem_of_singleton in Hm.
  destruct Hm as [-> | ->]; intuition discriminate.
Qed.

Lemma voice_update_fields (g : pyval) (m : gmap string pyval) :
  dom m ⊆ ({["sessionId"; "event"]} : gset string) →
  let msg := <["op" := PyStr "voiceUpdate"]> (<["guildId" := g]> ∅) ∪ m in
  msg !! "op" = Some (PyStr "voiceUpdate")
  ∧ msg !! "guildId" = Some g
  ∧ msg !! "sessionId" = m !! "sessionId"
  ∧ msg !! "event" = m !! "event".
Proof.
  intros Hsub msg. subst msg. split_and!.
  - by apply lookup_union_Some_l.
  - by apply lookup_union_Some_l.
  - by apply lookup_union_r.
  - by apply lookup_union_r.
Qed.

(** What one notification does to a player whose mapping holds only
    fragments. *)
Lemma notify_step (n : notification) (p : Player) (w : World) :
  fragments_only p →
  let m := merge_fragment n (_voice_state p) in
  let r := notify n p w in
  outcome r = Ok tt
  ∧ fragments_only (player_of r)
  ∧ guild_id (channel (player_of r)) = guild_id (channel p)
  ∧ if both_present m && negb (leaves_voice n)
    then ∃ msg, world_of r = add_sent msg w
                ∧ msg !! "op" = Some (PyStr "voiceUpdate")
                ∧ msg !! "guildId" = Some (guildId p)
                ∧ msg !! "sessionId" = m !! "sessionId"
                ∧ match n with
                  | ServerUpdate data => msg !! "event" = Some data
                  | StateUpdate _ => True
                  end
    else world_of r = w.
Proof.
  intros Hsub m r. unfold fragments_only in *.
  assert (dom m ⊆ ({["sessionId"; "event"]} : gset string)) as Hm.
  { subst m. destruct n; simpl; apply insert_fragment;
      auto using sessionId_fragment, event_fragment. }
  subst r. destruct n as [data|data]; simpl in *.
  - unfold on_voice_server_update, _dispatch_voice_update, bind, modify, get,
      lift, send, ret, outcome, player_of, world_of; simpl. fold m.
    rewrite (both_present_guard m Hm), andb_true_r.
    destruct (both_present m); [|done].
    rewrite (voice_update_kwargs _ m Hm); simpl.
    change (guildId (set_voice_state m p)) with (guildId p).
    destruct (voice_update_fields (guildId p) m Hm) as (Hop & Hg & Hs & He).
    split_and!; try done. eexists; split_and!; try done.
    rewrite He. subst m. by rewrite lookup_insert_eq.
  - unfold on_voice_state_update, bind, modify, get, ret; simpl. fold m.
    destruct (channel_id data) as [| |id]; simpl.
    + rewrite andb_false_r. split_and!; done.
    + rewrite andb_false_r. split_and!; done.
    + unfold _dispatch_voice_update, bind, get, lift, send, ret, outcome,
        player_of, world_of; simpl. fold m.
      rewrite (both_present_guard m Hm), andb_true_r.
      destruct (both_present m); [|done].
      assert (dom (<["event" := data_dict data]> m)
              ⊆ ({["sessionId"; "event"]} : gset string)) as Hm'.
      { apply insert_fragment; auto using event_fragment. }
      rewrite (voice_update_kwargs _ _ Hm'); simpl.
      change (guildId (set_channel (get_channel (guild_id (channel p)) id)
                         (set_voice_state m p))) with (guildId p).
      destruct (voice_update_fields (guildId p) _ Hm') as (Hop & Hg & Hs & He).
      split_and!; try done. eexists; split_and!; try done.
      rewrite Hs. by rewrite lookup_insert_ne.
Qed.

(** The other methods leave the mapping and the channel alone. *)
Lemma exec_keeps_voice (c : call) (p : Player) (w : World) :
  (∀ n, c ≠ Call_notify n) →
  _voice_state (player_of (exec c p w)) = _voice_state p
  ∧ channel (player_of (exec c p w)) = channel p.
Proof.
  destruct c as [time pos|n|reply|reply force| |source replace start end_| | | | |a];
    simpl; intros Hc; try done.
  - unfold discard, player_of. by update_state_steps time pos p w.
  - by destruct (Hc n).
  - by destruct reply.
  - unfold disconnect, try_finally, bind, change_voice_state, modify,
      players_remove, cleanup, player_of.
    destruct reply; simpl; by destruct list_remove.
  - unfold discard, play, bind, get, lift, update_state, modify, send, ret, player_of.
    simpl. destruct replace; simpl.
    + destruct source as [t|[t|e]]; done.
    + destruct (is_playing p) as [[]|e]; simpl; try done.
      destruct source as [t|[t|e]]; done.
  - by rewrite set_filters_keeps_player.
Qed.

Lemma exec_keeps_fragments (c : call) (p : Player) (w : World) :
  fragments_only p →
  fragments_only (player_of (exec c p w))
  ∧ guild_id (channel (player_of (exec c p w))) = guild_id (channel p).
Proof.
  intros Hp. destruct c as [| n | | | | | | | | |].
  2: { destruct (notify_step n p w Hp) as (_ & Hfrag & Hguild & _). done. }
  all: match goal with
       | |- context [exec ?c ?p ?w] =>
           destruct (exec_keeps_voice c p w) as [Hvs Hch]; [done|]
       end.
  all: unfold fragments_only; by rewrite Hvs, Hch.
Qed.

Lemma after_fragments (id : nat) (c : VoiceChannel) (cs : list call) :
  fragments_only (after id c cs).1
  ∧ guild_id (channel (after id c cs).1) = guild_id c.
Proof.
  unfold after; simpl.
  match goal with
  | |- context [exec_all cs ?p ?w] =>
      assert (fragments_only p ∧ guild_id (channel p) = guild_id c) as Hinit
        by (split; [unfold fragments_only; simpl; by rewrite dom_empty_L|done]);
      generalize dependent p; generalize w
  end.
  induction cs as [|c' cs IH]; intros w p Hinit; [done|].
  simpl. destruct Hinit as [Hfrag Hguild].
  destruct (exec_keeps_fragments c' p w Hfrag) as [Hfrag' Hguild'].
  destruct (exec c' p w) as [[r p'] w']. apply IH.
  split; [done|]. unfold player_of in Hguild'. simpl in Hguild'. congruence.
Qed.

(** C1, as amended: after any calls on a new player, a voice
    notification sends a voiceUpdate message if and only if both
    fragments are in the mapping once its own fragment is merged and the
    notification is not a voice-state notification without a channel; it
    then sends exactly one message, which carries the guild id and the
    stored session id, and for a voice-server notification the event just
    stored.  Otherwise nothing is sent. *)
Theorem voice_update_dispatch
  (id : nat) (c : VoiceChannel) (cs : list call) (n : notification) :
  let p := (after id c cs).1 in
  let w := (after id c cs).2 in
  let m := merge_fragment n (_voice_state p) in
  let r := notify n p w in
  outcome r = Ok tt
  ∧ if both_present m && negb (leaves_voice n)
    then ∃ msg, sent (world_of r) = sent w ++ [msg]
                ∧ msg !! "op" = Some (PyStr "voiceUpdate")
                ∧ msg !! "guildId" = Some (PyStr (str (guild_id c)))
                ∧ msg !! "sessionId" = m !! "sessionId"
                ∧ match n with
                  | ServerUpdate data => msg !! "event" = Some data
                  | StateUpdate _ => True
                  end
    else sent (world_of r) = sent w.
Proof.
  intros p w m r.
  destruct (after_fragments id c cs) as [Hfrag Hguild]. fold p in Hfrag, Hguild.
  destruct (notify_step n p w Hfrag) as (Hout & _ & _ & Hsend).
  fold m r in Hout, Hsend. split; [done|].
  destruct (both_present m && negb (leaves_voice n)).
  - destruct Hsend as (msg & -> & Hop & Hg & Hs & He).
    exists msg. split_and!; try done.
    rewrite Hg. unfold guildId. by rewrite Hguild.
  - by rewrite Hsend.
Qed.

(** The handshake in the order of the specification: the voice-server
    notification alone sends nothing, a voice-state notification with a
    channel then sends one message. *)
Example handshake_server_then_state :
  let pw := after 1 lobby [Call_notify (ServerUpdate (PyStr "token"))] in
  sent pw.2 = []
  ∧ ∃ msg,
      sent (world_of (notify (StateUpdate (voice_state_data (ChannelSnowflake 9)))
                        pw.1 pw.2)) = [msg]
      ∧ msg !! "op" = Some (PyStr "voiceUpdate")
      ∧ msg !! "guildId" = Some (PyStr "42")
      ∧ msg !! "sessionId" = Some (PyStr "5e55").
Proof. split; [reflexivity|]. eexists. split_and!; reflexivity. Qed.

(** On the voice-state path the message is built from a copy of the
    mapping in which the notification's own payload is bound to
    [event]. *)
Lemma state_update_event_field (data : VoiceStateData) (id : Z) (p : Player) (w : World) :
  channel_id data = ChannelSnowflake id →
  ∀ msg, msg ∈ sent (world_of (on_voice_state_update data p w)) →
         msg ∈ sent w ∨ msg !! "event" = Some (data_dict data).
Proof.
  intros Hid msg. unfold on_voice_state_update, _dispatch_voice_update, bind,
    modify, get, lift, send, ret, world_of, call_kwargs.
  rewrite Hid; simpl. case_bool_decide; [|by left].
  case_decide as Hdisj; simpl; [|by left].
  rewrite elem_of_app, list_elem_of_singleton. intros [?| ->]; [by left|right].
  apply lookup_union_Some_r; [done|]. by rewrite lookup_insert_eq.
Qed.

(** C1 as stated fails twice.  With the event stored, a voice-state
    notification without a channel has both fragments in the mapping
    after its merge and sends nothing; one with a channel sends a message
    whose event is the notification's own payload, not the stored
    fragment. *)
Lemma voice_update_dispatch_counterexample :
  let pw := after 1 lobby [Call_notify (ServerUpdate (PyStr "token"))] in
  let leaving := StateUpdate (voice_state_data ChannelNull) in
  let joining := StateUpdate (voice_state_data (ChannelSnowflake 9)) in
  (both_present (merge_fragment leaving (_voice_state pw.1)) = true
   ∧ sent (world_of (notify leaving pw.1 pw.2)) = sent pw.2)
  ∧ ∃ msg,
      sent (world_of (notify joining pw.1 pw.2)) = sent pw.2 ++ [msg]
      ∧ _voice_state pw.1 !! "event" = Some (PyStr "token")
      ∧ msg !! "event" = Some (data_dict (voice_state_data (ChannelSnowflake 9)))
      ∧ msg !! "event" ≠ Some (PyStr "token").
Proof.
  split; [split; reflexivity|].
  eexists. split_and!; [reflexivity..|]. by vm_compute.
Qed.

(** ** Filter validation *)

Lemma set_filters_run (a : filter_args) (p : Player) (w : World) :
  set_filters a p w
  = match filters_payload p a with
    | Ok payload => (Ok tt, p, add_sent payload w)
    | Raise e => (Raise e, p, w)
    end.
Proof.
  unfold set_filters, bind, get, lift, send; simpl.
  by destruct (filters_payload p a).
Qed.

Lemma getitem_key_Ok (v : pyval) (k : string) (x : pyval) :
  getitem_key v k = Ok x → ∃ d, v = PyDict d ∧ d !! k = Some x.
Proof.
  destruct v as [| | | | | | |d]; simpl; try done.
  destruct (d !! k) as [y|] eqn:Hk; [|done]. intros [= ->]. by exists d.
Qed.

Lemma getitem_key_Raise (v : pyval) (k : string) (e : exn) :
  getitem_key v k = Raise e → ∀ msg, e ≠ Exception msg.
Proof.
  destruct v as [| | | | | | |d]; simpl; try (by intros [= <-]).
  destruct (d !! k); [done|]. by intros [= <-].
Qed.

Lemma getitem_index_Raise (v : pyval) (i : nat) (e : exn) :
  getitem_index v i = Raise e → ∀ msg, e ≠ Exception msg.
Proof.
  destruct v as [| | | |s|l|l|d]; simpl; try (by intros [= <-]).
  all: case_match; try done; by intros [= <-].
Qed.

Lemma dict_update_Raise (payload : gmap string pyval) (v : pyval) (e : exn) :
  dict_update payload v = Raise e → ∀ msg, e ≠ Exception msg.
Proof. destruct v; simpl; try done; by intros [= <-]. Qed.

(** The check of a bundle finds nothing wrong exactly when the bundle
    passes the table. *)
Lemma any_not_float_passes (json : pyval) (name : string) (fields : list string) :
  fields ≠ [] →
  any_not_float json name fields = Ok false →
  ∃ d inner, json = PyDict d ∧ d !! name = Some (PyDict inner)
             ∧ ∀ f, f ∈ fields → ∃ q, inner !! f = Some (PyFloat q).
Proof.
  induction fields as [|f rest IH]; [done|]. intros _. simpl.
  destruct (getitem_key json name) as [outer|e] eqn:Houter; [|done]. simpl.
  destruct (getitem_key outer f) as [v|e] eqn:Hv; [|done]. simpl.
  destruct v as [| | |q| | | |]; simpl; try done. intros Hrest.
  apply getitem_key_Ok in Houter as (d & -> & Hname).
  apply getitem_key_Ok in Hv as (inner & -> & Hf).
  exists d, inner. split_and!; try done. intros f' Hin.
  apply elem_of_cons in Hin as [-> | Hin]; [by exists q|].
  destruct rest as [|f2 rest]; [by apply elem_of_nil in Hin|].
  destruct (IH ltac:(done) Hrest) as (d' & inner' & [= <-] & Hname' & Hall).
  rewrite Hname in Hname'. injection Hname' as <-. by apply Hall.
Qed.

Lemma bundle_ok_passes (d inner : gmap string pyval) (name : string)
  (fields : list string) :
  d !! name = Some (PyDict inner) →
  (∀ f, f ∈ fields → ∃ q, inner !! f = Some (PyFloat q)) →
  any_not_float (PyDict d) name fields = Ok false.
Proof.
  intros Hname. induction fields as [|f rest IH]; intros Hall; [done|].
  simpl. rewrite Hname; simpl.
  destruct (Hall f) as [q Hq]; [by left|]. rewrite Hq; simpl.
  apply IH. intros f' Hin. apply Hall. by right.
Qed.

Lemma any_not_float_Raise (json : pyval) (name : string) (fields : list string)
  (e : exn) :
  any_not_float json name fields = Raise e → ∀ msg, e ≠ Exception msg.
Proof.
  induction fields as [|f rest IH]; [done|]. simpl.
  destruct (getitem_key json name) as [outer|e'] eqn:Houter; simpl.
  2: { intros [= <-]. by eapply getitem_key_Raise. }
  destruct (getitem_key outer f) as [v|e'] eqn:Hv; simpl.
  2: { intros [= <-]. by eapply getitem_key_Raise. }
  destruct (is_float v); [done|]. done.
Qed.

Lemma merge_bundle_Ok (payload payload' : gmap string pyval) (b : bundle) :
  bundle_fields b ≠ [] →
  merge_bundle payload b = Ok payload' →
  bundle_json b = PyNone ∨ bundle_ok b.
Proof.
  intros Hfields. unfold merge_bundle, bundle_ok.
  destruct (bundle_json b) as [| | | | | | |d] eqn:Hjson; [by left|..].
  all: destruct (any_not_float _ _ _) as [[]|e] eqn:Hcheck; simpl; try done.
  all: intros _; right.
  all: destruct (any_not_float_passes _ _ _ Hfields Hcheck)
         as (d' & inner & Hd & Hname & Hall); try done.
  exists d', inner. done.
Qed.

Lemma merge_bundle_Exception (payload : gmap string pyval) (b : bundle) (msg : string) :
  merge_bundle payload b = Raise (Exception msg) →
  msg = bundle_error b ∧ bundle_json b ≠ PyNone ∧ ¬ bundle_ok b.
Proof.
  unfold merge_bundle. intros Hraise.
  assert (bundle_json b ≠ PyNone) as Hsupplied.
  { intros Hnone. by rewrite Hnone in Hraise. }
  assert ((deformed ← any_not_float (bundle_json b) (bundle_name b) (bundle_fields b);
           if deformed : bool then Raise (Exception (bundle_error b))
           else dict_update payload (bundle_json b)) = Raise (Exception msg)) as Hbody.
  { by destruct (bundle_json b). }
  clear Hraise.
  destruct (any_not_float _ _ _) as [[]|e] eqn:Hcheck; simpl in Hbody.
  - injection Hbody as <-. split_and!; try done.
    intros (d & inner & Hd & Hname & Hall).
    rewrite Hd in Hcheck. by rewrite (bundle_ok_passes d inner) in Hcheck.
  - by destruct (dict_update_Raise _ _ _ Hbody msg).
  - injection Hbody as ->. by destruct (any_not_float_Raise _ _ _ _ Hcheck msg).
Qed.

Lemma merge_bundles_Ok (bs : list bundle) (payload payload' : gmap string pyval) :
  merge_bundles payload bs = Ok payload' →
  ∀ b, b ∈ bs → bundle_fields b ≠ [] → bundle_json b = PyNone ∨ bundle_ok b.
Proof.
  revert payload. induction bs as [|b0 bs IH]; intros payload Hok b Hin Hfields.
  { by apply elem_of_nil in Hin. }
  simpl in Hok.
  destruct (merge_bundle payload b0) as [payload0|e] eqn:Hb0; [|done].
  apply elem_of_cons in Hin as [-> | Hin].
  - by eapply merge_bundle_Ok.
  - by eapply IH.
Qed.

Lemma merge_bundles_Exception (bs : list bundle) (payload : gmap string pyval)
  (msg : string) :
  merge_bundles payload bs = Raise (Exception msg) →
  ∃ b, b ∈ bs ∧ msg = bundle_error b ∧ bundle_json b ≠ PyNone ∧ ¬ bundle_ok b.
Proof.
  revert payload. induction bs as [|b0 bs IH]; intros payload Hraise; [done|].
  simpl in Hraise.
  destruct (merge_bundle payload b0) as [payload0|e] eqn:Hb0; simpl in Hraise.
  - destruct (IH _ Hraise) as (b & Hin & Hb). exists b. split; [by right|done].
  - injection Hraise as ->. exists b0. split; [by left|].
    by eapply merge_bundle_Exception.
Qed.

Lemma float_bundles_fields (a : filter_args) (b : bundle) :
  b ∈ float_bundles a → bundle_fields b ≠ [].
Proof.
  unfold float_bundles. rewrite !elem_of_cons, elem_of_nil.
  intros [->|[->|[->|[->|[->|[->|[->|[->|[]]]]]]]]]; done.
Qed.

Lemma bind_Ok_inv {A B} (r : result A) (f : A → result B) (y : B) :
  r ≫= f = Ok y → ∃ x, r = Ok x ∧ f x = Ok y.
Proof. destruct r as [x|e]; [|done]. intros Hf. by exists x. Qed.

Lemma bind_Raise_inv {A B} (r : result A) (f : A → result B) (e : exn) :
  r ≫= f = Raise e → r = Raise e ∨ ∃ x, r = Ok x ∧ f x = Raise e.
Proof.
  destruct r as [x|e']; simpl; [|intros [= ->]; by left].
  intros Hf. right. by exists x.
Qed.

Lemma normalize_equalizer_Raise (v : pyval) (e : exn) :
  normalize_equalizer v = Raise e → ∀ msg, e ≠ Exception msg.
Proof.
  destruct v as [| | | | |levels| |]; simpl; try done.
  destruct (bands_of levels) as [bs|e'] eqn:Hbands; simpl; [done|].
  intros [= <-]. revert e' Hbands.
  induction levels as [|i rest IH]; intros e' Hbands; [done|].
  simpl in Hbands. unfold band_of in Hbands.
  destruct (getitem_index i 0) as [b|e0] eqn:H0; simpl in Hbands.
  2: { injection Hbands as <-. by eapply getitem_index_Raise. }
  destruct (getitem_index i 1) as [g|e1] eqn:H1; simpl in Hbands.
  2: { injection Hbands as <-. by eapply getitem_index_Raise. }
  destruct (bands_of rest) as [bs|e2]; simpl in Hbands; [done|].
  injection Hbands as <-. by apply IH.
Qed.

Lemma merge_equalizer_Exception (payload : gmap string pyval) (json : pyval)
  (msg : string) :
  merge_equalizer payload json = Raise (Exception msg) →
  msg = "Deformed equalizerjson" ∧ json ≠ PyNone ∧ ¬ equalizer_ok json.
Proof.
  unfold merge_equalizer. intros Hraise.
  assert (json ≠ PyNone) as Hsupplied by (intros ->; done).
  assert ((v ← getitem_key json "equalizer";
           if is_list v then dict_update payload json
           else Raise (Exception "Deformed equalizerjson"))
          = Raise (Exception msg)) as Hbody by (by destruct json).
  clear Hraise.
  destruct (getitem_key json "equalizer") as [v|e] eqn:Hv; simpl in Hbody.
  - destruct (is_list v) eqn:Hlist.
    + by destruct (dict_update_Raise _ _ _ Hbody msg).
    + injection Hbody as <-. split_and!; [done..|].
      intros (d & l & -> & Hl). simpl in Hv. rewrite Hl in Hv.
      injection Hv as <-. discriminate Hlist.
  - injection Hbody as ->. by destruct (getitem_key_Raise _ _ _ Hv msg).
Qed.

Lemma merge_equalizer_Ok (payload payload' : gmap string pyval) (json : pyval) :
  merge_equalizer payload json = Ok payload' →
  json = PyNone ∨ equalizer_ok json.
Proof.
  unfold merge_equalizer, equalizer_ok.
  destruct json as [| | | | | | |d]; [by left|done..|].
  intros Hok. right. apply bind_Ok_inv in Hok as (v & Hv & Hok).
  apply getitem_key_Ok in Hv as (d' & [= <-] & Hv).
  destruct v as [| | | | |l| |]; try done. by exists d, l.
Qed.

Lemma normalize_equalizer_None (v v' : pyval) :
  normalize_equalizer v = Ok v' → v' ≠ PyNone → v ≠ PyNone.
Proof. by intros Hv Hv' ->; injection Hv as <-. Qed.

Lemma bind_Ok {A B} (x : A) (f : A → result B) : Ok x ≫= f = f x.
Proof. reflexivity. Qed.

Lemma Ok_inj {A} (x y : A) : Ok x = Ok y → x = y.
Proof. by intros [= ->]. Qed.

Lemma merge_all_app (payload : gmap string pyval) (l1 l2 : list pyval) :
  merge_all payload (l1 ++ l2) = merge_all (merge_all payload l1) l2.
Proof. unfold merge_all. apply foldl_app. Qed.

Lemma merge_all_cons (payload : gmap string pyval) (json : pyval) (l : list pyval) :
  merge_all payload (json :: l) = merge_all (merge_all payload [json]) l.
Proof. reflexivity. Qed.

Lemma merge_all_unbound (k : string) (jsons : list pyval) (payload : gmap string pyval) :
  (∀ d, PyDict d ∈ jsons → d !! k = None) →
  merge_all payload jsons !! k = payload !! k.
Proof.
  revert payload. induction jsons as [|json jsons IH]; intros payload Hfree; [done|].
  rewrite merge_all_cons.
  rewrite IH by (intros d Hd; apply Hfree; by right).
  destruct json as [| | | | | | |d]; try done. simpl.
  apply lookup_union_r. apply Hfree. by left.
Qed.

Lemma merge_bundle_accepts (payload : gmap string pyval) (b : bundle) :
  bundle_json b = PyNone ∨ bundle_ok b →
  merge_bundle payload b = Ok (merge_all payload [bundle_json b]).
Proof.
  unfold merge_bundle.
  intros [Hnone | (d & inner & Hd & Hname & Hall)]; [by rewrite Hnone|].
  rewrite Hd. by rewrite (bundle_ok_passes d inner).
Qed.

Lemma merge_bundles_cons (payload : gmap string pyval) (b : bundle) (bs : list bundle) :
  merge_bundles payload (b :: bs)
  = payload' ← merge_bundle payload b; merge_bundles payload' bs.
Proof. reflexivity. Qed.

Lemma merge_bundles_app (payload : gmap string pyval) (l1 l2 : list bundle) :
  merge_bundles payload (l1 ++ l2)
  = payload' ← merge_bundles payload l1; merge_bundles payload' l2.
Proof.
  revert payload. induction l1 as [|b l1 IH]; intros payload; [done|].
  rewrite <- app_comm_cons, !merge_bundles_cons.
  destruct (merge_bundle payload b) as [payload0|e]; [|done].
  rewrite !bind_Ok. apply IH.
Qed.

Lemma merge_bundles_accepts (bs : list bundle) (payload : gmap string pyval) :
  (∀ b, b ∈ bs → bundle_json b = PyNone ∨ bundle_ok b) →
  merge_bundles payload bs = Ok (merge_all payload (bundle_json <$> bs)).
Proof.
  revert payload. induction bs as [|b bs IH]; intros payload Hall; [done|].
  rewrite merge_bundles_cons, merge_bundle_accepts by (apply Hall; by left).
  rewrite bind_Ok, IH by (intros b' Hb'; apply Hall; by right).
  by rewrite fmap_cons, (merge_all_cons payload).
Qed.

Lemma merge_equalizer_accepts (payload : gmap string pyval) (json : pyval) :
  json = PyNone ∨ equalizer_ok json →
  merge_equalizer payload json = Ok (merge_all payload [json]).
Proof.
  unfold merge_equalizer. intros [-> | (d & l & -> & Hl)]; [done|].
  simpl. by rewrite Hl.
Qed.

(** The two merging steps over any head and any list of bundles. *)
Lemma merged_accepts (head : gmap string pyval) (json : pyval) (bs : list bundle) :
  json = PyNone ∨ equalizer_ok json →
  (∀ b, b ∈ bs → bundle_json b = PyNone ∨ bundle_ok b) →
  (payload ← merge_equalizer head json; merge_bundles payload bs)
  = Ok (merge_all head (json :: (bundle_json <$> bs))).
Proof.
  intros Heq Hall.
  rewrite (merge_equalizer_accepts _ _ Heq), bind_Ok.
  rewrite (merge_bundles_accepts _ _ Hall). by rewrite (merge_all_cons head).
Qed.

Lemma merged_Ok_inv (head msg : gmap string pyval) (json : pyval) (bs : list bundle) :
  (∀ b, b ∈ bs → bundle_fields b ≠ []) →
  (payload ← merge_equalizer head json; merge_bundles payload bs) = Ok msg →
  (json = PyNone ∨ equalizer_ok json)
  ∧ ∀ b, b ∈ bs → bundle_json b = PyNone ∨ bundle_ok b.
Proof.
  intros Hfields Hok.
  apply bind_Ok_inv in Hok as (payload0 & Heq & Hok). split.
  - by eapply merge_equalizer_Ok.
  - intros b Hin. eapply merge_bundles_Ok; [exact Hok | exact Hin |].
    by apply Hfields.
Qed.

Lemma merged_first_failure
  (head : gmap string pyval) (json : pyval) (l1 l2 : list bundle) (b : bundle)
  (e : exn) :
  json = PyNone ∨ equalizer_ok json →
  (∀ b', b' ∈ l1 → bundle_json b' = PyNone ∨ bundle_ok b') →
  (∀ payload, merge_bundle payload b = Raise e) →
  (payload ← merge_equalizer head json; merge_bundles payload (l1 ++ b :: l2))
  = Raise e.
Proof.
  intros Heq Hl1 Hb.
  rewrite (merge_equalizer_accepts _ _ Heq), bind_Ok.
  rewrite merge_bundles_app, (merge_bundles_accepts _ _ Hl1), bind_Ok.
  by rewrite merge_bundles_cons, Hb.
Qed.

Lemma filters_payload_normalized (a : filter_args) (p : Player) (json : pyval) :
  normalize_equalizer (equalizerjson a) = Ok json →
  filters_payload p a
  = (payload ← merge_equalizer (filters_head p) json;
     merge_bundles payload (float_bundles a)).
Proof. intros Hnorm. unfold filters_payload. by rewrite Hnorm. Qed.

Lemma any_not_float_first
  (d inner : gmap string pyval) (name : string) (pre post : list string) (f : string) :
  d !! name = Some (PyDict inner) →
  (∀ f', f' ∈ pre → ∃ q, inner !! f' = Some (PyFloat q)) →
  any_not_float (PyDict d) name (pre ++ f :: post)
  = match inner !! f with
    | None => Raise (KeyError (PyStr f))
    | Some v => if is_float v then any_not_float (PyDict d) name post else Ok true
    end.
Proof.
  intros Hname. induction pre as [|f0 pre IH]; intros Hpre; simpl.
  - rewrite Hname; simpl. by destruct (inner !! f).
  - rewrite Hname; simpl. destruct (Hpre f0) as [q Hq]; [by left|].
    rewrite Hq; simpl. apply IH. intros f' Hf'. apply Hpre. by right.
Qed.

(** C2, as amended: a call of [set_filters] either sends exactly one
    message or raises, and when it raises nothing is sent and the player
    is unchanged; it raises whenever a supplied bundle other than the
    equalizer misses a required field or gives it a value that is not a
    float, and whenever the equalizer bundle does not hold a list under
    its name; when the error raised is the malformed-payload exception, its
    message names a supplied bundle that does not pass, the equalizer
    included, and no two bundles share a message.  A required field that
    is missing, when the equalizer, the bundles checked before and the
    fields checked before pass, raises the [KeyError] of the field, which
    does not tell the bundle: tremolo and vibrato without [frequency]
    raise the same error.  With a karaoke bundle whose level is the
    integer 1 the call raises the exception for karaoke and sends
    nothing. *)
Theorem set_filters_validation (a : filter_args) (p : Player) (w : World) :
  ((∃ payload, filters_payload p a = Ok payload
               ∧ set_filters a p w = (Ok tt, p, add_sent payload w))
   ∨ (∃ e, filters_payload p a = Raise e
           ∧ set_filters a p w = (Raise e, p, w)))
  ∧ (∀ b, b ∈ float_bundles a → bundle_json b ≠ PyNone → ¬ bundle_ok b →
          ∃ e, set_filters a p w = (Raise e, p, w))
  ∧ (equalizerjson a ≠ PyNone →
     (∀ json, normalize_equalizer (equalizerjson a) = Ok json → ¬ equalizer_ok json) →
     ∃ e, set_filters a p w = (Raise e, p, w))
  ∧ (∀ msg, outcome (set_filters a p w) = Raise (Exception msg) →
            (msg = "Deformed equalizerjson" ∧ equalizerjson a ≠ PyNone
             ∧ ∃ json, normalize_equalizer (equalizerjson a) = Ok json
                       ∧ json ≠ PyNone ∧ ¬ equalizer_ok json)
            ∨ ∃ b, b ∈ float_bundles a ∧ msg = bundle_error b
                   ∧ bundle_json b ≠ PyNone ∧ ¬ bundle_ok b)
  ∧ NoDup ("Deformed equalizerjson" :: (bundle_error <$> float_bundles a))
  ∧ set_karaoke karaoke_int_level p w
    = (Raise (Exception "Deformed karaokejson"), p, w)
  ∧ (∀ json l1 b l2 d inner pre f post,
       normalize_equalizer (equalizerjson a) = Ok json →
       json = PyNone ∨ equalizer_ok json →
       float_bundles a = l1 ++ b :: l2 →
       (∀ b', b' ∈ l1 → bundle_json b' = PyNone ∨ bundle_ok b') →
       bundle_json b = PyDict d →
       d !! bundle_name b = Some (PyDict inner) →
       bundle_fields b = pre ++ f :: post →
       (∀ f', f' ∈ pre → ∃ q, inner !! f' = Some (PyFloat q)) →
       inner !! f = None →
       set_filters a p w = (Raise (KeyError (PyStr f)), p, w))
  ∧ (∀ inner : gmap string pyval,
       inner !! "frequency" = None →
       set_tremolo (PyDict {["tremolo" := PyDict inner]}) p w
       = (Raise (KeyError (PyStr "frequency")), p, w)
       ∧ set_vibrato (PyDict {["vibrato" := PyDict inner]}) p w
         = (Raise (KeyError (PyStr "frequency")), p, w)).
Proof.
  split_and!.
  - rewrite set_filters_run. destruct (filters_payload p a) as [payload|e].
    + left. by exists payload.
    + right. by exists e.
  - rewrite set_filters_run. intros b Hin Hsupplied Hbad.
    destruct (filters_payload p a) as [payload|e] eqn:Hpayload.
    2: { by exists e. }
    exfalso. unfold filters_payload in Hpayload.
    apply bind_Ok_inv in Hpayload as (eq & _ & Hpayload).
    apply bind_Ok_inv in Hpayload as (payload0 & _ & Hpayload).
    destruct (merge_bundles_Ok _ _ _ Hpayload b Hin); [|done|done].
    by eapply float_bundles_fields.
  - rewrite set_filters_run. intros Hsupplied Hbad.
    destruct (filters_payload p a) as [payload|e] eqn:Hpayload.
    2: { by exists e. }
    exfalso. unfold filters_payload in Hpayload.
    apply bind_Ok_inv in Hpayload as (eq & Hnorm & Hpayload).
    apply bind_Ok_inv in Hpayload as (payload0 & Heq & _).
    destruct (merge_equalizer_Ok _ _ _ Heq) as [-> | Hok].
    + destruct (equalizerjson a); simpl in Hnorm; try done.
      by apply bind_Ok_inv in Hnorm as (bs & _ & ?).
    + by apply (Hbad eq).
  - rewrite set_filters_run. intros msg.
    destruct (filters_payload p a) as [payload|e] eqn:Hpayload;
      unfold outcome; simpl; [done|].
    intros [= ->]. unfold filters_payload in Hpayload.
    apply bind_Raise_inv in Hpayload as [Hnorm | (eq & Hnorm & Hpayload)].
    { by destruct (normalize_equalizer_Raise _ _ Hnorm msg). }
    apply bind_Raise_inv in Hpayload as [Heq | (payload0 & _ & Hpayload)].
    + left. destruct (merge_equalizer_Exception _ _ _ Heq)
        as (-> & Hsupplied & Hbad).
      split_and!; [done | by eapply normalize_equalizer_None |].
      by exists eq.
    + right. by eapply merge_bundles_Exception.
  - apply (bool_decide_unpack _). by vm_compute.
  - reflexivity.
  - intros json l1 b l2 d inner pre f post
      Hnorm Heq Hbundles Hl1 Hd Hname Hfields Hpre Hmissing.
    rewrite set_filters_run.
    rewrite (filters_payload_normalized a p json Hnorm), Hbundles.
    rewrite (merged_first_failure _ _ _ _ _ (KeyError (PyStr f)) Heq Hl1);
      [reflexivity|].
    intros payload. unfold merge_bundle. rewrite Hd, Hfields.
    rewrite (any_not_float_first d inner (bundle_name b) pre post f Hname Hpre).
    rewrite Hmissing. reflexivity.
  - intros inner Hmissing.
    unfold set_tremolo, set_vibrato.
    split; rewrite set_filters_run; unfold filters_payload; simpl;
      unfold merge_bundle; simpl; rewrite lookup_singleton_eq; simpl;
      rewrite Hmissing; reflexivity.
Qed.

Lemma set_filters_validation_witness :
  let a := {| equalizerjson := PyNone; karaokejson := karaoke_int_level;
              timescalejson := PyNone; tremolojson := PyNone;
              vibratojson := PyNone; rotationjson := PyNone;
              distortionjson := PyNone; channelMixjson := PyNone;
              lowPassjson := PyNone |} in
  let depth_only : gmap string pyval := {["depth" := PyFloat (1 # 2)]} in
  let a' := {| equalizerjson := PyNone; karaokejson := PyNone;
               timescalejson := PyNone; tremolojson := PyNone;
               vibratojson := PyDict {["vibrato" := PyDict depth_only]};
               rotationjson := PyNone; distortionjson := PyNone;
               channelMixjson := PyNone; lowPassjson := PyNone |} in
  let pw := after 1 lobby [] in
  (∃ e, set_filters a pw.1 pw.2 = (Raise e, pw.1, pw.2))
  ∧ sent (world_of (set_filters a pw.1 pw.2)) = []
  ∧ (∃ e, set_filters (with_equalizer (PyStr "flat") a) pw.1 pw.2
          = (Raise e, pw.1, pw.2))
  ∧ (∃ b, b ∈ float_bundles a ∧ bundle_name b = "karaoke"
          ∧ bundle_error b = "Deformed karaokejson")
  ∧ set_filters a' pw.1 pw.2 = (Raise (KeyError (PyStr "frequency")), pw.1, pw.2)
  ∧ set_tremolo (PyDict {["tremolo" := PyDict depth_only]}) pw.1 pw.2
    = (Raise (KeyError (PyStr "frequency")), pw.1, pw.2).
Proof.
  intros a depth_only a' pw.
  destruct (set_filters_validation a pw.1 pw.2)
    as (_ & Hraises & _ & Hnames & _ & Hkaraoke & _ & Hsame).
  destruct (set_filters_validation (with_equalizer (PyStr "flat") a) pw.1 pw.2)
    as (_ & _ & Hequalizer & _).
  destruct (set_filters_validation a' pw.1 pw.2)
    as (_ & _ & _ & _ & _ & _ & Hmissing & _).
  split_and!.
  - apply (Hraises {| bundle_name := "karaoke";
                      bundle_fields := ["level"; "monoLevel"; "filterBand"; "filterWidth"];
                      bundle_error := "Deformed karaokejson";
                      bundle_json := karaoke_int_level |}).
    + left.
    + discriminate.
    + intros (d & inner & Hd & Hname & Hall). simpl in *.
      injection Hd as <-. injection Hname as <-.
      destruct (Hall "level") as [q Hq]; [left|]. discriminate.
  - change (set_filters a pw.1 pw.2)
      with (set_karaoke karaoke_int_level pw.1 pw.2).
    rewrite Hkaraoke. reflexivity.
  - apply Hequalizer.
    + discriminate.
    + intros json [= <-] (d & l & Hd & _). discriminate.
  - destruct (Hnames "Deformed karaokejson") as [[Heq _] | (b & Hin & Hmsg & _)].
    + reflexivity.
    + discriminate.
    + exists b. split; [exact Hin|]. split; [|by rewrite Hmsg].
      revert Hin Hmsg. unfold float_bundles.
      rewrite !elem_of_cons, elem_of_nil.
      intros [->|[->|[->|[->|[->|[->|[->|[->|[]]]]]]]]]; simpl; intros; congruence.
  - apply (Hmissing PyNone (take 3 (float_bundles a'))
             {| bundle_name := "vibrato";
                bundle_fields := ["frequency"; "depth"];
                bundle_error := "Deformed vibratojson";
                bundle_json := PyDict {["vibrato" := PyDict depth_only]} |}
             (drop 4 (float_bundles a'))
             {["vibrato" := PyDict depth_only]} depth_only
             [] "frequency" ["depth"]).
    + reflexivity.
    + by left.
    + reflexivity.
    + intros b' Hb'. simpl in Hb'. rewrite !elem_of_cons, elem_of_nil in Hb'.
      destruct Hb' as [->|[->|[->|[]]]]; by left.
    + reflexivity.
    + reflexivity.
    + reflexivity.
    + intros f' Hf'. by apply elem_of_nil in Hf'.
    + reflexivity.
  - apply (Hsame depth_only). reflexivity.
Defined.

(** C2 as stated fails on the error: a missing field raises the
    [KeyError] of the field, which is not the malformed-payload exception
    and does not tell the bundle.  A tremolo bundle and a vibrato bundle
    that both lack [frequency] raise the same error. *)
Lemma set_filters_validation_counterexample :
  let pw := after 1 lobby [] in
  let no_frequency (name : string) : pyval :=
    PyDict {[name := PyDict {["depth" := PyFloat (1 # 2)]}]} in
  outcome (set_tremolo (no_frequency "tremolo") pw.1 pw.2)
    = Raise (KeyError (PyStr "frequency"))
  ∧ outcome (set_vibrato (no_frequency "vibrato") pw.1 pw.2)
    = Raise (KeyError (PyStr "frequency")).
Proof. split; reflexivity. Qed.

(** ** Equalizer *)

(** C5, as amended: of a supplied equalizer bundle [set_filters] checks
    only that the value under [equalizer] is a list, and raises the
    malformed-payload exception naming the equalizer bundle when it is
    not; the list may be empty and its elements are not looked at, the
    bundle is merged into the message as it is. *)
Theorem equalizer_checked_as_list
  (a : filter_args) (d : gmap string pyval) (p : Player) (w : World) :
  match d !! "equalizer" with
  | Some (PyList l) =>
      filters_payload p (with_equalizer (PyDict d) a)
      = merge_bundles (d ∪ filters_head p) (float_bundles a)
      ∧ set_equalizer (PyDict d) p w = (Ok tt, p, add_sent (d ∪ filters_head p) w)
  | Some _ =>
      set_filters (with_equalizer (PyDict d) a) p w
      = (Raise (Exception "Deformed equalizerjson"), p, w)
  | None =>
      set_filters (with_equalizer (PyDict d) a) p w
      = (Raise (KeyError (PyStr "equalizer")), p, w)
  end
  ∧ set_equalizer (PyList []) p w
    = (Ok tt, p, add_sent (<["equalizer" := PyList []]> (filters_head p)) w).
Proof.
  split; [|reflexivity].
  unfold set_equalizer. rewrite !set_filters_run.
  unfold filters_payload; simpl.
  destruct (d !! "equalizer") as [v|] eqn:Hv; simpl; [|done].
  destruct v; done.
Qed.

(** C5 as stated fails: the empty list and an element without [band] are
    not rejected, the message is sent with them. *)
Lemma equalizer_checked_as_list_counterexample :
  let pw := after 1 lobby [] in
  let no_band := PyList [PyDict {["gain" := PyFloat (1 # 10)]}] in
  (∃ msg, set_equalizer (PyList []) pw.1 pw.2 = (Ok tt, pw.1, add_sent msg pw.2)
          ∧ msg !! "equalizer" = Some (PyList []))
  ∧ (∃ msg, set_equalizer (PyDict {["equalizer" := PyList []]}) pw.1 pw.2
            = (Ok tt, pw.1, add_sent msg pw.2)
            ∧ msg !! "equalizer" = Some (PyList []))
  ∧ (∃ msg, set_equalizer (PyDict {["equalizer" := no_band]}) pw.1 pw.2
            = (Ok tt, pw.1, add_sent msg pw.2)
            ∧ msg !! "equalizer" = Some no_band).
Proof. split_and!; eexists; split; reflexivity. Qed.

(** ** Shorthand forms *)

Lemma bands_of_pairs (pairs : list (pyval * pyval)) :
  bands_of (pair_tuple <$> pairs) = Ok (band_dict <$> pairs).
Proof.
  induction pairs as [|[b g] pairs IH]; [done|].
  rewrite !fmap_cons. change (bands_of (pair_tuple (b, g) :: (pair_tuple <$> pairs)))
    with (bs ← bands_of (pair_tuple <$> pairs); Ok (band_dict (b, g) :: bs)).
  by rewrite IH.
Qed.

(** C6, as amended: an equalizer argument given as a list of (band, gain)
    pairs is replaced by the dictionary binding [equalizer] to the list of
    band/gain dictionaries in the same order, a rotation argument given as
    a float by the dictionary binding [rotation] to its [rotationHz], and
    a low-pass argument given as a float by the dictionary binding
    [lowPass] to its [smoothing]; the call then goes on as with the
    canonical form, and alone each form is sent in the message. *)
Theorem shorthand_normalized
  (a : filter_args) (pairs : list (pyval * pyval)) (q : Q)
  (p : Player) (w : World) :
  set_filters (with_equalizer (PyList (pair_tuple <$> pairs)) a) p w
  = set_filters
      (with_equalizer (PyDict {["equalizer" := PyList (band_dict <$> pairs)]}) a) p w
  ∧ set_filters (with_rotation (PyFloat q) a) p w
    = set_filters
        (with_rotation (PyDict {["rotation" := PyDict {["rotationHz" := PyFloat q]}]}) a) p w
  ∧ set_filters (with_lowPass (PyFloat q) a) p w
    = set_filters
        (with_lowPass (PyDict {["lowPass" := PyDict {["smoothing" := PyFloat q]}]}) a) p w
  ∧ set_equalizer (PyList (pair_tuple <$> pairs)) p w
    = (Ok tt, p,
       add_sent (<["equalizer" := PyList (band_dict <$> pairs)]> (filters_head p)) w)
  ∧ set_rotation (PyFloat q) p w
    = (Ok tt, p,
       add_sent (<["rotation" := PyDict {["rotationHz" := PyFloat q]}]>
                 (filters_head p)) w)
  ∧ set_lowPass (PyFloat q) p w
    = (Ok tt, p,
       add_sent (<["lowPass" := PyDict {["smoothing" := PyFloat q]}]>
                 (filters_head p)) w).
Proof.
  split_and!.
  - rewrite !set_filters_run. unfold filters_payload; simpl.
    by rewrite bands_of_pairs.
  - reflexivity.
  - reflexivity.
  - unfold set_equalizer. rewrite set_filters_run. unfold filters_payload; simpl.
    rewrite bands_of_pairs; simpl. by rewrite insert_union_singleton_l.
  - unfold set_rotation. rewrite set_filters_run. unfold filters_payload; simpl.
    by rewrite insert_union_singleton_l.
  - unfold set_lowPass. rewrite set_filters_run. unfold filters_payload; simpl.
    by rewrite insert_union_singleton_l.
Qed.

(** C6 as stated fails on numbers that are not floats: an integer
    frequency is not replaced, the call raises [TypeError] on subscripting
    it where the canonical form raises the malformed-payload exception;
    the same holds for low pass.  A sequence of pairs that is a tuple,
    not a list, is not replaced either. *)
Lemma shorthand_normalized_counterexample :
  let pw := after 1 lobby [] in
  outcome (set_equalizer (PyTuple [PyTuple [PyInt 0; PyFloat (1 # 10)]]) pw.1 pw.2)
    = Raise (TypeError "tuple indices must be integers or slices, not str")
  ∧ outcome (set_rotation (PyInt 1) pw.1 pw.2)
    = Raise (TypeError "object is not subscriptable")
  ∧ outcome (set_rotation (PyDict {["rotation" := PyDict {["rotationHz" := PyInt 1]}]})
               pw.1 pw.2)
    = Raise (Exception "Deformed rotationjson")
  ∧ outcome (set_lowPass (PyInt 20) pw.1 pw.2)
    = Raise (TypeError "object is not subscriptable")
  ∧ outcome (set_lowPass (PyDict {["lowPass" := PyDict {["smoothing" := PyInt 20]}]})
               pw.1 pw.2)
    = Raise (Exception "Deformed lowPassjson").
Proof. split_and!; reflexivity. Qed.

(** ** The specification's examples *)

(** [set_filters(equalizerjson=[(0, -0.25), (1, 0.1)])]. *)
Example equalizer_pairs_message :
  let pw := after 1 lobby [] in
  sent (world_of (set_equalizer
                    (PyList [PyTuple [PyInt 0; PyFloat (-(1 # 4))];
                             PyTuple [PyInt 1; PyFloat (1 # 10)]]) pw.1 pw.2))
  = [ <["equalizer" :=
          PyList [PyDict (<["band" := PyInt 0]> {["gain" := PyFloat (-(1 # 4))]});
                  PyDict (<["band" := PyInt 1]> {["gain" := PyFloat (1 # 10)]})]]>
      (filters_head pw.1) ].
Proof. reflexivity. Qed.

(** [stop()] after [play]: the stop message goes out and nothing is
    playing any more. *)
Example stop_after_play :
  let pw := after 1 lobby [Call_connect (Ok ()); Call_play (Track sourceA) true 0 0] in
  is_playing pw.1 = Ok true
  ∧ stop pw.1 pw.2
    = (Ok tt, set_source None pw.1,
       add_sent (<["op" := PyStr "stop"]> {["guildId" := PyStr "42"]}) pw.2)
  ∧ is_playing (player_of (stop pw.1 pw.2)) = Ok false.
Proof. split_and!; reflexivity. Qed.

(** A state update read back while paused: 2340 ms is 2.3 s. *)
Example paused_position :
  let pw := after 1 lobby [Call_connect (Ok ());
                           Call_play (Track sourceA) true 0 0;
                           Call_set_pause true;
                           Call_update_state (Some 10000) (Some 2340)] in
  position 99 pw.1 = Ok (23 # 10)%Q.
Proof. reflexivity. Qed.

(** * Further properties of the methods *)

(** ** Rounding and the position read *)

Lemma round_half_even_near (x : Q) :
  (inject_Z (round_half_even x) - (1 # 2) <= x
   ∧ x <= inject_Z (round_half_even x) + (1 # 2))%Q.
Proof.
  unfold round_half_even.
  pose proof (Qfloor_le x) as Hlo. pose proof (Qlt_floor x) as Hhi.
  rewrite inject_Z_plus in Hhi. change (inject_Z 1) with 1%Q in Hhi.
  destruct (x - inject_Z (Qfloor x) ?= 1 # 2)%Q eqn:Hcmp.
  - apply Qeq_alt in Hcmp.
    destruct (Z.even (Qfloor x)); rewrite ?inject_Z_plus;
      change (inject_Z 1) with 1%Q; split; lra.
  - apply Qlt_alt in Hcmp. split; lra.
  - apply Qgt_alt in Hcmp. rewrite inject_Z_plus.
    change (inject_Z 1) with 1%Q. split; lra.
Qed.

Lemma round_half_even_mono (x y : Q) :
  (x <= y)%Q → round_half_even x <= round_half_even y.
Proof.
  intros Hxy. pose proof (Qfloor_resp_le x y Hxy) as Hfloor.
  assert (Qfloor x <= round_half_even x <= Qfloor x + 1) as Hx.
  { unfold round_half_even. repeat case_match; lia. }
  assert (Qfloor y <= round_half_even y <= Qfloor y + 1) as Hy.
  { unfold round_half_even. repeat case_match; lia. }
  destruct (decide (Qfloor x = Qfloor y)) as [Heq|Hne]; [|lia].
  unfold round_half_even. rewrite <- Heq.
  destruct (x - inject_Z (Qfloor x) ?= 1 # 2)%Q eqn:Hcx;
    destruct (y - inject_Z (Qfloor x) ?= 1 # 2)%Q eqn:Hcy;
    try (destruct (Z.even (Qfloor x)); lia); try lia; exfalso.
  all: repeat match goal with
       | H : (_ ?= _)%Q = Eq |- _ => apply Qeq_alt in H
       | H : (_ ?= _)%Q = Lt |- _ => apply Qlt_alt in H
       | H : (_ ?= _)%Q = Gt |- _ => apply Qgt_alt in H
       end; lra.
Qed.

Lemma py_round1_mono (x y : Q) : (x <= y)%Q → (py_round1 x <= py_round1 y)%Q.
Proof.
  intros Hxy. unfold py_round1.
  assert (round_half_even (x * 10) <= round_half_even (y * 10)) as Hr.
  { apply round_half_even_mono. lra. }
  unfold Qle; simpl. lia.
Qed.

Lemma py_round1_near (x : Q) :
  (py_round1 x - (1 # 20) <= x ∧ x <= py_round1 x + (1 # 20))%Q.
Proof.
  unfold py_round1. pose proof (round_half_even_near (x * 10)) as [Hlo Hhi].
  rewrite Qmake_Qdiv.
  change (inject_Z (Z.pos 10)) with (10 : Q).
  generalize dependent (inject_Z (round_half_even (x * 10))). intros r Hlo Hhi.
  unfold Qdiv. change (/ 10)%Q with (1 # 10)%Q. split; lra.
Qed.

Lemma py_min_mono_l (a a' d : Q) : (a <= a')%Q → (py_min a d <= py_min a' d)%Q.
Proof.
  intros Ha. unfold py_min.
  destruct (Qle_bool a d) eqn:Had; destruct (Qle_bool a' d) eqn:Ha'd.
  - done.
  - by apply Qle_bool_iff.
  - apply Qle_bool_iff in Ha'd.
    assert (¬ (a <= d)%Q) by (rewrite <- Qle_bool_iff; congruence). lra.
  - apply Qle_refl.
Qed.

(** X1: the position read follows the clock.  Whether it raises does not
    depend on the clock; when it returns, a later reading never gives an
    earlier position, and while the player is paused every reading gives
    the same position. *)
Theorem position_follows_clock (p : Player) (now1 now2 : Q) :
  (now1 <= now2)%Q →
  (∃ e, position now1 p = Raise e ∧ position now2 p = Raise e)
  ∨ (∃ x1 x2, position now1 p = Ok x1 ∧ position now2 p = Ok x2
              ∧ (x1 <= x2)%Q ∧ (is_paused p = true → x1 = x2)).
Proof.
  intros Hclock. unfold position, number, source_duration.
  destruct (is_playing p) as [[]|e]; simpl.
  - destruct (is_paused p).
    + destruct (last_position p) as [lp|]; simpl; [|left; by eexists].
      destruct (_source p) as [src|]; simpl; [|left; by eexists].
      right. eexists _, _. split_and!; try done. apply Qle_refl.
    + destruct (last_update p) as [lu|]; simpl; [|left; by eexists].
      destruct (last_position p) as [lp|]; simpl; [|left; by eexists].
      destruct (_source p) as [src|]; simpl; [|left; by eexists].
      right. eexists _, _. split_and!; try done.
      apply py_min_mono_l, py_round1_mono. lra.
  - right. exists 0%Q, 0%Q. split_and!; try done.
  - left. by exists e.
Qed.

Lemma position_follows_clock_witness :
  let p := (after 1 lobby [Call_connect (Ok ());
                           Call_play (Track sourceA) true 0 0;
                           Call_update_state (Some 10000) (Some 2340)]).1 in
  ∃ x1 x2, position 11 p = Ok x1 ∧ position (25 # 2) p = Ok x2 ∧ (x1 <= x2)%Q.
Proof.
  intros p.
  destruct (position_follows_clock p 11 (25 # 2)) as [(e & He & _) | Hok].
  - by compute.
  - discriminate He.
  - destruct Hok as (x1 & x2 & H1 & H2 & Hle & _). by exists x1, x2.
Defined.

(** X2: [update_state] assigns the two tracker attributes one after the
    other, and either right-hand side can raise.  A time outside the
    years 1 to 9999, in milliseconds since the epoch, raises before
    anything is assigned: the player is as it was.  A time inside them
    with a position too large for a float raises [OverflowError] between
    the two assignments: [last_update] is new, [last_position] is not.
    Otherwise the call returns with both assigned.  The rest of the
    player and the world are never touched. *)
Theorem update_state_two_steps (time pos : option Z) (p : Player) (w : World) :
  let t := default 0 time in
  let x := default 0 pos in
  (¬ (-62135596800000 <= t < 253402300800000) →
   ∃ e, update_state time pos p w = (Raise e, p, w))
  ∧ (-62135596800000 <= t < 253402300800000 →
     float_overflow <= Z.abs x →
     ∃ lu, update_state time pos p w
           = (Raise (OverflowError "integer division result too large for a float"),
              set_last_update lu p, w))
  ∧ (-62135596800000 <= t < 253402300800000 →
     Z.abs x < float_overflow →
     ∃ lu lp, update_state time pos p w = (Ok tt, set_tracker lu lp p, w))
  ∧ float_overflow = (2 ^ 1024 - 2 ^ 970) * 1000.
Proof.
  intros t x. unfold update_state, bind, lift, modify. fold t x.
  assert (-62135596800000 <= t < 253402300800000 →
          truediv_1000 t = Ok (t # 1000)
          ∧ fromtimestamp (t # 1000) = Ok (t # 1000)) as Hyears.
  { intros Ht. split.
    - unfold truediv_1000.
      destruct (Z.ltb_spec (Z.abs t) float_overflow) as [|Hle]; [done|].
      unfold float_overflow in Hle. lia.
    - by rewrite fromtimestamp_ms, (proj2 (in_years_spec t) Ht). }
  split_and!.
  - intros Ht. unfold truediv_1000 at 1.
    destruct (Z.abs t <? _); [|by eexists].
    rewrite fromtimestamp_ms.
    destruct (in_years t) eqn:Hin; [|by eexists].
    by apply in_years_spec in Hin.
  - intros Ht Hx. destruct (Hyears Ht) as [-> ->]. unfold truediv_1000.
    destruct (Z.ltb_spec (Z.abs x) float_overflow); [lia|].
    by eexists.
  - intros Ht Hx. destruct (Hyears Ht) as [-> ->]. unfold truediv_1000.
    destruct (Z.ltb_spec (Z.abs x) float_overflow); [|lia].
    by eexists _, _.
  - by vm_compute.
Qed.

Lemma update_state_two_steps_witness :
  let pw := after 1 lobby [Call_connect (Ok ());
                           Call_play (Track sourceA) true 0 0;
                           Call_update_state (Some 10000) (Some 2340)] in
  (∃ e, update_state (Some 253402300800000) (Some 5000) pw.1 pw.2
        = (Raise e, pw.1, pw.2))
  ∧ (∃ lu, update_state (Some 20000) (Some (2 ^ 1034)) pw.1 pw.2
           = (Raise (OverflowError "integer division result too large for a float"),
              set_last_update lu pw.1, pw.2))
  ∧ (∃ lu lp, update_state (Some 20000) (Some 5000) pw.1 pw.2
              = (Ok tt, set_tracker lu lp pw.1, pw.2)).
Proof.
  intros pw.
  destruct (update_state_two_steps (Some 253402300800000) (Some 5000) pw.1 pw.2)
    as (Hbefore & _ & _).
  destruct (update_state_two_steps (Some 20000) (Some (2 ^ 1034)) pw.1 pw.2)
    as (_ & Hbetween & _).
  destruct (update_state_two_steps (Some 20000) (Some 5000) pw.1 pw.2)
    as (_ & _ & Hboth & _).
  split_and!.
  - apply Hbefore. simpl. lia.
  - apply Hbetween; [simpl; lia | by vm_compute].
  - apply Hboth; [simpl; lia | by vm_compute].
Defined.

(** X3: [play] resets the tracker to the epoch, not to the clock.  On a
    connected player, right after a [play] that goes ahead and until the
    node reports a state, the position reads the full duration at every
    clock reading later than the duration itself. *)
Theorem position_right_after_play
  (t : Playable) (replace : bool) (start end_ : Z) (now : Q)
  (p : Player) (w : World) :
  _connected p = Some true →
  replace = true ∨ _source p = None →
  (duration t + (1 # 20) <= now)%Q →
  ∃ x, position now (player_of (play (Track t) replace start end_ p w)) = Ok x
       ∧ (x == duration t)%Q.
Proof.
  intros Hconn Hgo Hlate.
  assert ((if replace then Ok true else negb <$> is_playing p) = Ok true) as Hcond.
  { destruct Hgo as [-> | Hidle]; [done|]. destruct replace; [done|].
    unfold is_playing, is_connected. by rewrite Hconn, Hidle. }
  unfold play, bind, get, lift; simpl. rewrite Hcond; simpl.
  unfold player_of, position, is_playing, is_connected, is_paused, number,
    source_duration; simpl.
  rewrite Hconn; simpl. eexists. split; [done|].
  pose proof (py_round1_near (py_round1 (0 # 1000) + (now - (0 # 1000)))) as [_ Hhi].
  assert (py_round1 (0 # 1000) == 0)%Q as Hzero by done.
  unfold py_min. destruct (Qle_bool _ _) eqn:Hcap; [|done].
  apply Qle_bool_iff in Hcap. apply Qle_antisym; [done|].
  assert ((0 # 1000) == 0)%Q as Hepoch by done. lra.
Qed.

Lemma position_right_after_play_witness :
  let pw := after 1 lobby [Call_connect (Ok ())] in
  ∃ x, position 1700000000
         (player_of (play (Track sourceA) true 0 0 pw.1 pw.2)) = Ok x
       ∧ (x == 100)%Q.
Proof.
  intros pw.
  apply (position_right_after_play sourceA true 0 0 1700000000 pw.1 pw.2).
  - reflexivity.
  - by left.
  - by compute.
Defined.

(** ** Starting and stopping *)

(** X4: when [replace] is set or nothing is playing, [play] of a resolved
    track goes ahead: it resets the tracker to the epoch, clears the pause
    flag, stores the track, sends one play message and returns the track.
    The message carries the track id, [noReplace] as the negation of
    [replace] and the start time as a string; it carries [endTime] exactly
    when [end] is positive.  A partial track whose search succeeds is
    played like the track found. *)
Theorem play_goes_ahead
  (t : Playable) (replace : bool) (start end_ : Z) (p : Player) (w : World) :
  replace = true ∨ is_playing p = Ok false →
  (∃ msg,
     play (Track t) replace start end_ p w
     = (Ok (Some t),
        set_source (Some t)
          (set_paused false (set_tracker (0 # 1000) (py_round1 (0 # 1000)) p)),
        add_sent msg w)
     ∧ msg !! "op" = Some (PyStr "play")
     ∧ msg !! "guildId" = Some (guildId p)
     ∧ msg !! "track" = Some (PyStr (track_id t))
     ∧ msg !! "noReplace" = Some (PyBool (negb replace))
     ∧ msg !! "startTime" = Some (PyStr (str start))
     ∧ msg !! "endTime" = (if 0 <? end_ then Some (PyStr (str end_)) else None))
  ∧ play (PartialTrack (Ok t)) replace start end_ p w
    = play (Track t) replace start end_ p w.
Proof.
  intros Hgo.
  assert ((if replace then Ok true else negb <$> is_playing p) = Ok true) as Hcond.
  { destruct Hgo as [-> | Hidle]; [done|]. destruct replace; [done|].
    by rewrite Hidle. }
  split; [|by unfold play, bind, get, lift; simpl; rewrite Hcond].
  unfold play, bind, get, lift, update_state, modify, send, ret; simpl.
  rewrite Hcond; simpl. eexists. split; [done|].
  destruct (0 <? end_); split_and!; by simplify_map_eq.
Qed.

Lemma play_goes_ahead_witness :
  let pw := after 1 lobby [Call_connect (Ok ())] in
  ∃ msg, sent (world_of (play (Track sourceA) false 0 (-5) pw.1 pw.2)) = [msg]
         ∧ msg !! "noReplace" = Some (PyBool true)
         ∧ msg !! "endTime" = None.
Proof.
  intros pw.
  destruct (play_goes_ahead sourceA false 0 (-5) pw.1 pw.2) as [Hplay _].
  - right. reflexivity.
  - destruct Hplay as (msg & Hrun & _ & _ & _ & Hno & _ & Hend).
    exists msg. rewrite Hrun. split_and!; [reflexivity | exact Hno | exact Hend].
Defined.

(** X5: when the search of a partial track raises, [play] has already
    reset the tracker and cleared the pause flag: the exception goes to the
    caller, nothing is sent and the source stays what it was. *)
Theorem play_search_fails
  (e : exn) (replace : bool) (start end_ : Z) (p : Player) (w : World) :
  replace = true ∨ is_playing p = Ok false →
  play (PartialTrack (Raise e)) replace start end_ p w
  = (Raise e,
     set_paused false (set_tracker (0 # 1000) (py_round1 (0 # 1000)) p),
     w)
  ∧ _source (player_of (play (PartialTrack (Raise e)) replace start end_ p w))
    = _source p.
Proof.
  intros Hgo.
  assert ((if replace then Ok true else negb <$> is_playing p) = Ok true) as Hcond.
  { destruct Hgo as [-> | Hidle]; [done|]. destruct replace; [done|].
    by rewrite Hidle. }
  unfold play, bind, get, lift, update_state, modify, player_of; simpl.
  by rewrite Hcond.
Qed.

Lemma play_search_fails_witness :
  let pw := after 1 lobby [Call_connect (Ok ());
                           Call_play (Track sourceA) true 0 0;
                           Call_set_pause true] in
  let r := play (PartialTrack (Raise (Exception "no results"))) true 0 0 pw.1 pw.2 in
  _paused pw.1 = true
  ∧ outcome r = Raise (Exception "no results")
  ∧ _paused (player_of r) = false
  ∧ _source (player_of r) = Some sourceA
  ∧ sent (world_of r) = sent pw.2.
Proof.
  intros pw r.
  destruct (play_search_fails (Exception "no results") true 0 0 pw.1 pw.2
              (or_introl eq_refl)) as [Hrun Hsrc].
  subst r. rewrite Hrun. split_and!; reflexivity.
Defined.

(** X6: [stop] sends the stop message, also when nothing is playing, and
    forgets the source but neither the pause flag nor the tracker.  On a
    player whose connected flag is assigned nothing is playing afterwards,
    the position reads 0, and a [play] with [replace=False] goes ahead. *)
Theorem stop_forgets_source
  (connected : bool) (now : Q) (t : Playable) (start end_ : Z)
  (p : Player) (w : World) :
  _connected p = Some connected →
  let r := stop p w in
  r = (Ok tt, set_source None p,
       add_sent (<["op" := PyStr "stop"]> (<["guildId" := guildId p]> ∅)) w)
  ∧ is_playing (player_of r) = Ok false
  ∧ position now (player_of r) = Ok 0%Q
  ∧ _paused (player_of r) = _paused p
  ∧ outcome (play (Track t) false start end_ (player_of r) (world_of r))
    = Ok (Some t).
Proof.
  intros Hconn r. subst r.
  unfold stop, bind, get, send, modify, player_of, world_of, outcome; simpl.
  unfold position, play, bind, get, lift, is_playing, is_connected; simpl.
  rewrite Hconn; simpl. rewrite andb_false_r; simpl. done.
Qed.

Lemma stop_forgets_source_witness :
  let pw := after 1 lobby [Call_connect (Ok ());
                           Call_play (Track sourceA) true 0 0] in
  is_playing pw.1 = Ok true
  ∧ is_playing (player_of (stop pw.1 pw.2)) = Ok false
  ∧ position 12 (player_of (stop pw.1 pw.2)) = Ok 0%Q.
Proof.
  intros pw.
  destruct (stop_forgets_source true 12 sourceB 0 0 pw.1 pw.2 eq_refl)
    as (_ & Hidle & Hpos & _).
  split_and!; [reflexivity | exact Hidle | exact Hpos].
Defined.

(** X7: [pause] followed by [resume] on a player that was not paused
    leaves every attribute as it was and sends the two pause messages.
    The tracker is not touched, so the position read after the resume
    counts the time spent paused. *)
Theorem pause_resume_round_trip (now : Q) (p : Player) (w : World) :
  _paused p = false →
  let paused := pause p w in
  let resumed := resume (player_of paused) (world_of paused) in
  outcome paused = Ok tt ∧ outcome resumed = Ok tt
  ∧ _paused (player_of paused) = true
  ∧ player_of resumed = p
  ∧ position now (player_of resumed) = position now p
  ∧ sent (world_of resumed)
    = sent w ++ [ <["op" := PyStr "pause"]>
                   (<["guildId" := guildId p]> (<["pause" := PyBool true]> ∅));
                  <["op" := PyStr "pause"]>
                   (<["guildId" := guildId p]> (<["pause" := PyBool false]> ∅)) ].
Proof.
  intros Hflag paused resumed. subst paused resumed.
  unfold pause, resume, set_pause, bind, get, send, modify, outcome,
    player_of, world_of; simpl.
  assert (set_paused false (set_paused true p) = p) as Hback.
  { destruct p; simpl in *. by subst. }
  rewrite Hback. split_and!; try done.
  unfold add_sent; simpl. by rewrite <- app_assoc.
Qed.

Lemma pause_resume_round_trip_witness :
  let pw := after 1 lobby [Call_connect (Ok ());
                           Call_play (Track sourceA) true 0 0;
                           Call_update_state (Some 10000) (Some 2000)] in
  let paused := pause pw.1 pw.2 in
  let resumed := resume (player_of paused) (world_of paused) in
  position 13 (player_of paused) = Ok (20 # 10)%Q
  ∧ player_of resumed = pw.1
  ∧ position 13 (player_of resumed) = Ok (50 # 10)%Q.
Proof.
  intros pw paused resumed.
  destruct (pause_resume_round_trip 13 pw.1 pw.2 eq_refl)
    as (_ & _ & _ & Hback & Hpos & _).
  fold paused resumed in Hback, Hpos.
  split_and!; [reflexivity | exact Hback | rewrite Hpos; reflexivity].
Defined.

(** ** The life cycle *)

(** Unfolds a method call down to the primitive steps and splits on
    every branch it takes. *)
Ltac run_call :=
  unfold exec, notify, discard, on_voice_server_update, on_voice_state_update,
    _dispatch_voice_update, connect, disconnect, move_to, play, stop,
    set_pause, set_volume, seek, set_filters, update_state, try_finally,
    bind, get, lift, modify, send, ret, change_voice_state, players_remove,
    cleanup, outcome, player_of, world_of;
  simpl; repeat case_match; simplify_eq/=.

Lemma exec_keeps_self (c : call) (p : Player) (w : World) :
  self (player_of (exec c p w)) = self p.
Proof. destruct c as [| [|] | | | | | | | | |]; run_call; done. Qed.

Lemma exec_keeps_registry (c : call) (p : Player) (w : World) :
  is_disconnect c = false →
  players (world_of (exec c p w)) = players w
  ∧ cleanups (world_of (exec c p w)) = cleanups w.
Proof. destruct c as [| [|] | | | | | | | | |]; intros Hc; run_call; done. Qed.

(** X8: [disconnect] clears the connected flag exactly when the request
    to leave succeeds, whether or not the cleanup runs.  After a leave
    that succeeded nothing is playing and the position reads 0, though the
    source is still stored; after one that raised no attribute of the
    player has changed, so it answers [is_connected] as before. *)
Theorem disconnect_flag_follows_leave
  (reply : result unit) (force : bool) (now : Q) (p : Player) (w : World) :
  let p' := player_of (disconnect reply force p w) in
  match reply with
  | Ok _ =>
      is_connected p' = Ok false ∧ is_playing p' = Ok false
      ∧ position now p' = Ok 0%Q ∧ _source p' = _source p
  | Raise _ => p' = p
  end.
Proof. destruct reply; run_call; done. Qed.

(** X9: [disconnect] on a player that is not in the node's list still
    asks the host to leave and, if that succeeds, clears the connected
    flag; the removal then raises [ValueError], which replaces whatever
    the host raised, and the cleanup does not run. *)
Theorem disconnect_unregistered
  (reply : result unit) (force : bool) (p : Player) (w : World) :
  self p ∉ players w →
  let r := disconnect reply force p w in
  outcome r = Raise (ValueError "list.remove(x): x not in list")
  ∧ voice_requests (world_of r) = voice_requests w ++ [None]
  ∧ players (world_of r) = players w
  ∧ cleanups (world_of r) = cleanups w.
Proof.
  intros Hout r. subst r.
  unfold disconnect, try_finally, bind, change_voice_state, modify,
    players_remove, cleanup, outcome, world_of.
  destruct reply; simpl; by rewrite (list_remove_absent _ _ Hout).
Qed.

Lemma disconnect_unregistered_witness :
  let pw := after 1 lobby [Call_connect (Ok ()); Call_disconnect (Ok ()) true] in
  let r := disconnect leave_failed true pw.1 pw.2 in
  outcome r = Raise (ValueError "list.remove(x): x not in list")
  ∧ cleanups (world_of r) = 1%nat.
Proof.
  intros pw r.
  assert (self pw.1 ∉ players pw.2) as Hout by (simpl; apply not_elem_of_nil).
  destruct (disconnect_unregistered leave_failed true pw.1 pw.2 Hout)
    as (Hraise & _ & _ & Hclean).
  split; [exact Hraise | exact Hclean].
Defined.

Lemma list_remove_last (x : nat) (l : list nat) :
  x ∉ l → list_remove x (l ++ [x]) = Some l.
Proof.
  induction l as [|y l IH]; simpl.
  - intros _. by rewrite decide_True.
  - rewrite not_elem_of_cons. intros [Hne Hl].
    rewrite decide_False by done. by rewrite IH.
Qed.

(** X10: constructing a player and disconnecting it gives the node its
    player list back: [__init__] appends the new player, [disconnect]
    takes it out again whatever the host answers, and the cleanup runs
    once. *)
Theorem init_disconnect_round_trip
  (id : nat) (c : VoiceChannel) (reply : result unit) (force : bool) (w : World) :
  id ∉ players w →
  let r := disconnect reply force (__init__ id c w).1 (__init__ id c w).2 in
  outcome r = reply
  ∧ players (world_of r) = players w
  ∧ cleanups (world_of r) = S (cleanups w).
Proof.
  intros Hnew r. subst r.
  unfold disconnect, try_finally, bind, change_voice_state, modify,
    players_remove, cleanup, outcome, world_of; simpl.
  destruct reply as [[]|e]; simpl; by rewrite (list_remove_last _ _ Hnew).
Qed.

Lemma init_disconnect_round_trip_witness :
  let w := (after 1 lobby []).2 in
  let r := disconnect leave_failed false (__init__ 2 lobby w).1 (__init__ 2 lobby w).2 in
  players w = [1%nat] ∧ players (world_of r) = [1%nat]
  ∧ cleanups (world_of r) = 1%nat.
Proof.
  intros w r.
  assert (2%nat ∉ players w) as Hnew.
  { simpl. rewrite not_elem_of_cons. split; [discriminate | apply not_elem_of_nil]. }
  destruct (init_disconnect_round_trip 2 lobby leave_failed false w Hnew)
    as (_ & Hplayers & Hclean).
  split_and!; [reflexivity | exact Hplayers | exact Hclean].
Defined.

Lemma disconnect_registry (reply : result unit) (force : bool) (p : Player) (w : World) :
  (players w = [self p] ∧ cleanups w = 0%nat) ∨ (players w = [] ∧ cleanups w = 1%nat) →
  players (world_of (disconnect reply force p w)) = []
  ∧ cleanups (world_of (disconnect reply force p w)) = 1%nat.
Proof.
  unfold disconnect, try_finally, bind, change_voice_state, modify,
    players_remove, cleanup, world_of.
  intros [[Hreg Hclean] | [Hreg Hclean]]; destruct reply; simpl;
    rewrite Hreg; simpl; rewrite ?decide_True by done; simpl; rewrite ?Hclean; done.
Qed.

Lemma exec_all_registry (cs : list call) (p : Player) (w : World) :
  (players w = [self p] ∧ cleanups w = 0%nat) ∨ (players w = [] ∧ cleanups w = 1%nat) →
  let gone := existsb is_disconnect cs || bool_decide (players w = []) in
  self (exec_all cs p w).1 = self p
  ∧ players (exec_all cs p w).2 = (if gone then [] else [self p])
  ∧ cleanups (exec_all cs p w).2 = (if gone then 1 else 0)%nat.
Proof.
  revert p w. induction cs as [|c cs IH]; intros p w Hstate; simpl.
  - destruct Hstate as [[-> ->] | [-> ->]]; done.
  - pose proof (exec_keeps_self c p w) as Hself.
    destruct (is_disconnect c) eqn:Hc; simpl.
    + destruct c as [| | |reply force| | | | | | |]; try done. simpl in *.
      destruct (disconnect_registry reply force p w Hstate) as [Hreg Hclean].
      unfold player_of, world_of in *.
      destruct (disconnect reply force p w) as [[r p'] w']. simpl in *.
      destruct (IH p' w') as (Hs & Hp & Hcl); [by right|].
      rewrite Hreg in Hp, Hcl. simpl in Hp, Hcl.
      rewrite orb_true_r in Hp, Hcl. split_and!; congruence.
    + destruct (exec_keeps_registry c p w Hc) as [Hreg Hclean].
      unfold player_of, world_of in *.
      destruct (exec c p w) as [[r p'] w']. simpl in *.
      destruct (IH p' w') as (Hs & Hp & Hcl); [by rewrite Hreg, Hclean, Hself|].
      rewrite Hreg, Hself in *. done.
Qed.

(** X11: over any calls on a new player the node's list holds the player
    once until the first [disconnect] and never again after it, and the
    cleanup runs exactly once if [disconnect] is ever called, at that
    first call: a later [disconnect] does not clean up again. *)
Theorem registered_until_disconnect (id : nat) (c : VoiceChannel) (cs : list call) :
  let pw := after id c cs in
  self pw.1 = id
  ∧ players pw.2 = (if existsb is_disconnect cs then [] else [id])
  ∧ cleanups pw.2 = (if existsb is_disconnect cs then 1 else 0)%nat.
Proof.
  unfold after; simpl.
  match goal with
  | |- context [exec_all cs ?p ?w] =>
      destruct (exec_all_registry cs p w) as (Hs & Hp & Hcl); [by left|]
  end.
  simpl in Hs, Hp, Hcl. rewrite orb_false_r in Hp, Hcl. done.
Qed.

(** ** What runs keep *)

Lemma exec_volume (c : call) (p : Player) (w : World) :
  0 <= volume p <= 1000 → 0 <= volume (player_of (exec c p w)) <= 1000.
Proof. destruct c as [| [|] | | | | | | | | |]; intros Hv; run_call; lia. Qed.

(** X12: the stored volume is within 0 and 1000 after any calls on a new
    player, whatever volumes were asked for. *)
Theorem volume_in_range (id : nat) (c : VoiceChannel) (cs : list call) :
  0 <= volume (after id c cs).1 <= 1000.
Proof.
  unfold after; simpl.
  match goal with
  | |- context [exec_all cs ?p ?w] =>
      assert (0 <= volume p <= 1000) as Hinit by (simpl; lia);
      generalize dependent p; generalize w
  end.
  induction cs as [|c' cs IH]; intros w p Hv; [done|]. simpl.
  pose proof (exec_volume c' p w Hv) as Hv'. unfold player_of in Hv'.
  destruct (exec c' p w) as [[r p'] w']. by apply IH.
Qed.

Lemma exec_sends_at_most_one (c : call) (p : Player) (w : World) :
  (silent c = true → sent (world_of (exec c p w)) = sent w)
  ∧ (sent (world_of (exec c p w)) = sent w
     ∨ ∃ msg, sent (world_of (exec c p w)) = sent w ++ [msg]).
Proof.
  destruct c as [| [|] | | | | | | | | |]; run_call;
    (split; [done | first [by left | right; by eexists]]).
Qed.

(** X13: a method call sends at most one control message, so the filters
    of one [set_filters] call travel together; [update_state], [connect],
    [disconnect] and [move_to] send none.  A run never sends more messages
    than it has calls that are not of these four. *)
Theorem one_message_per_call (c : call) (cs : list call) (p : Player) (w : World) :
  (silent c = true → sent (world_of (exec c p w)) = sent w)
  ∧ (sent (world_of (exec c p w)) = sent w
     ∨ ∃ msg, sent (world_of (exec c p w)) = sent w ++ [msg])
  ∧ (length (sent (exec_all cs p w).2)
     ≤ length (sent w) + length (filter (λ c, silent c = false) cs))%nat.
Proof.
  destruct (exec_sends_at_most_one c p w) as [Hsilent Hone].
  split_and!; try done. clear.
  revert p w. induction cs as [|c cs IH]; intros p w; simpl; [lia|].
  destruct (exec_sends_at_most_one c p w) as [Hsilent Hone].
  unfold world_of in *. destruct (exec c p w) as [[r p'] w']. simpl in *.
  specialize (IH p' w'). rewrite filter_cons.
  destruct (silent c); simpl.
  - rewrite Hsilent in IH by done. lia.
  - destruct Hone as [Heq | [msg Heq]]; rewrite Heq in IH;
      rewrite ?length_app in IH; simpl in IH; lia.
Qed.

Lemma one_message_per_call_witness :
  let pw := after 1 lobby [] in
  sent (world_of (exec (Call_connect (Ok ())) pw.1 pw.2)) = sent pw.2.
Proof.
  intros pw.
  destruct (one_message_per_call (Call_connect (Ok ())) [] pw.1 pw.2)
    as (Hsilent & _ & _).
  apply Hsilent. reflexivity.
Defined.






(** ** More on the handshake *)

Lemma both_present_merge (n : notification) (vs : gmap string pyval) :
  both_present vs = true → both_present (merge_fragment n vs) = true.
Proof.
  unfold both_present. intros Hvs. apply bool_decide_eq_true in Hvs as [Hs He].
  apply bool_decide_eq_true.
  destruct n; simpl; rewrite !lookup_insert; repeat case_decide; done.
Qed.

Lemma notify_merges (n : notification) (p : Player) (w : World) :
  leaves_voice n = false →
  _voice_state (player_of (notify n p w)) = merge_fragment n (_voice_state p).
Proof.
  destruct n as [data|data]; simpl; intros Hstay.
  - unfold on_voice_server_update, bind, modify, get.
    by rewrite dispatch_keeps_player.
  - unfold on_voice_state_update, bind, modify, get, ret.
    destruct (channel_id data); try done. by rewrite dispatch_keeps_player.
Qed.

(** X15: the mapping is kept after a dispatch.  Once both fragments are
    in it, every further notification that does not leave the channel
    sends one more voiceUpdate message and leaves both fragments in. *)
Theorem handshake_stays_complete
  (id : nat) (c : VoiceChannel) (cs : list call) (n : notification) :
  let p := (after id c cs).1 in
  let w := (after id c cs).2 in
  both_present (_voice_state p) = true →
  leaves_voice n = false →
  (∃ msg, sent (world_of (notify n p w)) = sent w ++ [msg]
          ∧ msg !! "op" = Some (PyStr "voiceUpdate"))
  ∧ both_present (_voice_state (player_of (notify n p w))) = true.
Proof.
  intros p w Hboth Hstay.
  destruct (after_fragments id c cs) as [Hfrag _]. fold p in Hfrag.
  destruct (notify_step n p w Hfrag) as (_ & _ & _ & Hsend).
  rewrite (both_present_merge n _ Hboth), Hstay in Hsend. simpl in Hsend.
  destruct Hsend as (msg & -> & Hop & _). split.
  - by exists msg.
  - rewrite (notify_merges n p w Hstay). by apply both_present_merge.
Qed.

Lemma handshake_stays_complete_witness :
  let cs := [Call_notify (StateUpdate (voice_state_data (ChannelSnowflake 9)));
             Call_notify (ServerUpdate (PyStr "token"))] in
  let pw := after 1 lobby cs in
  length (sent pw.2) = 1%nat
  ∧ ∃ msg, sent (world_of (notify (ServerUpdate (PyStr "token")) pw.1 pw.2))
           = sent pw.2 ++ [msg].
Proof.
  intros cs pw. split; [reflexivity|].
  destruct (handshake_stays_complete 1 lobby cs (ServerUpdate (PyStr "token")))
    as [(msg & Hsent & _) _]; [reflexivity..|].
  by exists msg.
Defined.





(** ** More on filters *)

(** X17: [set_filters] sends exactly when the equalizer argument, after
    its shorthand is replaced, is absent or holds a list under
    [equalizer], and every other bundle is absent or gives every required
    field a float.  The message is then the head with the supplied
    dictionaries merged over it in the order equalizer, karaoke,
    timescale, tremolo, vibrato, rotation, distortion, channelMix,
    lowPass. *)
Theorem set_filters_accepts (a : filter_args) (p : Player) (w : World) :
  (outcome (set_filters a p w) = Ok tt
   ↔ (∃ json, normalize_equalizer (equalizerjson a) = Ok json
              ∧ (json = PyNone ∨ equalizer_ok json))
     ∧ ∀ b, b ∈ float_bundles a → bundle_json b = PyNone ∨ bundle_ok b)
  ∧ ∀ json,
      normalize_equalizer (equalizerjson a) = Ok json →
      json = PyNone ∨ equalizer_ok json →
      (∀ b, b ∈ float_bundles a → bundle_json b = PyNone ∨ bundle_ok b) →
      set_filters a p w
      = (Ok tt, p,
         add_sent (merge_all (filters_head p)
                     (json :: (bundle_json <$> float_bundles a))) w).
Proof.
  rewrite set_filters_run. split.
  - split.
    + destruct (filters_payload p a) as [payload|e] eqn:Hpayload;
        [intros _ | intros Hok; discriminate Hok].
      unfold filters_payload in Hpayload.
      apply bind_Ok_inv in Hpayload as (json & Hnorm & Hpayload).
      apply merged_Ok_inv in Hpayload as [Heq Hall];
        [|apply float_bundles_fields].
      split; [|exact Hall]. exists json. split; [exact Hnorm | exact Heq].
    + intros [(json & Hnorm & Heq) Hall].
      rewrite (filters_payload_normalized a p json Hnorm).
      rewrite (merged_accepts _ _ _ Heq Hall). reflexivity.
  - intros json Hnorm Heq Hall.
    rewrite (filters_payload_normalized a p json Hnorm).
    rewrite (merged_accepts _ _ _ Heq Hall). reflexivity.
Qed.

Lemma set_filters_accepts_witness :
  let pw := after 1 lobby [] in
  let a := with_rotation (PyFloat (1 # 5))
             (with_equalizer (PyList [PyTuple [PyInt 0; PyFloat (1 # 4)]]) no_filters) in
  ∃ msg, set_filters a pw.1 pw.2 = (Ok tt, pw.1, add_sent msg pw.2)
         ∧ msg !! "op" = Some (PyStr "filters")
         ∧ msg !! "rotation" = Some (PyDict {["rotationHz" := PyFloat (1 # 5)]}).
Proof.
  intros pw a.
  destruct (set_filters_accepts a pw.1 pw.2) as [_ Hsend].
  eexists. split.
  - apply Hsend.
    + reflexivity.
    + right. eexists _, _. split; reflexivity.
    + unfold a, float_bundles. intros b.
      rewrite !elem_of_cons, elem_of_nil.
      intros [->|[->|[->|[->|[->|[->|[->|[->|[]]]]]]]]]; try (by left).
      right. eexists _, _. split_and!; [reflexivity..|].
      intros f Hf. apply list_elem_of_singleton in Hf as ->. by eexists.
  - split; reflexivity.
Defined.

(** X18: the head of a filters message is not protected.  In the message
    [set_filters] sends, a key that no supplied dictionary binds keeps the
    value of the head, so the opcode and the guild id are the head's
    unless a bundle binds them; a key bound by a supplied dictionary has
    the value of the last dictionary, in the order of the checks, that
    binds it. *)
Theorem filters_last_binder_wins
  (a : filter_args) (p : Player) (w : World)
  (msg : gmap string pyval) (json : pyval) (k : string) :
  sent (world_of (set_filters a p w)) = sent w ++ [msg] →
  normalize_equalizer (equalizerjson a) = Ok json →
  let jsons := json :: (bundle_json <$> float_bundles a) in
  ((∀ d, PyDict d ∈ jsons → d !! k = None) → msg !! k = filters_head p !! k)
  ∧ ∀ l1 d l2 v,
      jsons = l1 ++ PyDict d :: l2 →
      d !! k = Some v →
      (∀ d', PyDict d' ∈ l2 → d' !! k = None) →
      msg !! k = Some v.
Proof.
  intros Hsent Hnorm jsons.
  assert (msg = merge_all (filters_head p) jsons) as Hmsg.
  { rewrite set_filters_run in Hsent.
    destruct (filters_payload p a) as [payload|e] eqn:Hpayload;
      unfold world_of in Hsent; simpl in Hsent.
    2: { apply (f_equal length) in Hsent. rewrite length_app in Hsent.
         simpl in Hsent. lia. }
    apply app_inv_head in Hsent. injection Hsent as Hsent.
    rewrite (filters_payload_normalized a p json Hnorm) in Hpayload.
    pose proof (merged_Ok_inv _ _ _ _ (float_bundles_fields a) Hpayload)
      as [Heq Hall].
    rewrite (merged_accepts _ _ _ Heq Hall) in Hpayload.
    apply Ok_inj in Hpayload. subst jsons.
    rewrite Hpayload. symmetry. exact Hsent. }
  clearbody jsons. rewrite Hmsg. clear Hmsg Hsent. split.
  - apply merge_all_unbound.
  - intros l1 d l2 v Hsplit Hv Hlast. rewrite Hsplit.
    rewrite merge_all_app, merge_all_cons.
    rewrite merge_all_unbound by exact Hlast.
    apply lookup_union_Some_l. exact Hv.
Qed.

Lemma filters_last_binder_wins_witness :
  let pw := after 1 lobby [] in
  let karaoke : gmap string pyval :=
    <["op" := PyStr "destroy"]>
      {["karaoke" := PyDict (<["level" := PyFloat 1]>
                             (<["monoLevel" := PyFloat 1]>
                              (<["filterBand" := PyFloat 220]>
                               {["filterWidth" := PyFloat 100]})))]} in
  ∃ msg, sent (world_of (set_karaoke (PyDict karaoke) pw.1 pw.2)) = [msg]
         ∧ msg !! "op" = Some (PyStr "destroy")
         ∧ msg !! "guildId" = Some (PyStr "42").
Proof.
  intros pw karaoke. eexists. split; [reflexivity|].
  match goal with
  | |- ?m !! _ = _ ∧ _ =>
      destruct (filters_last_binder_wins
                  {| equalizerjson := PyNone; karaokejson := PyDict karaoke;
                     timescalejson := PyNone; tremolojson := PyNone;
                     vibratojson := PyNone; rotationjson := PyNone;
                     distortionjson := PyNone; channelMixjson := PyNone;
                     lowPassjson := PyNone |}
                  pw.1 pw.2 m PyNone "op" eq_refl eq_refl) as [_ Hop];
      destruct (filters_last_binder_wins
                  {| equalizerjson := PyNone; karaokejson := PyDict karaoke;
                     timescalejson := PyNone; tremolojson := PyNone;
                     vibratojson := PyNone; rotationjson := PyNone;
                     distortionjson := PyNone; channelMixjson := PyNone;
                     lowPassjson := PyNone |}
                  pw.1 pw.2 m PyNone "guildId" eq_refl eq_refl) as [Hhead _]
  end.
  split.
  - apply (Hop [PyNone] karaoke
             [PyNone; PyNone; PyNone; PyNone; PyNone; PyNone; PyNone]
             (PyStr "destroy")).
    + reflexivity.
    + reflexivity.
    + intros d' Hd'. rewrite !elem_of_cons, elem_of_nil in Hd'.
      destruct Hd' as [?|[?|[?|[?|[?|[?|[?|[]]]]]]]]; discriminate.
  - rewrite Hhead; [reflexivity|].
    intros d Hd. simpl in Hd. rewrite !elem_of_cons, elem_of_nil in Hd.
    destruct Hd as [?|[Hk|[?|[?|[?|[?|[?|[?|[?|[]]]]]]]]]]; try discriminate.
    injection Hk as Hk. first [rewrite Hk | rewrite <- Hk]. reflexivity.
Defined.

(** X19: which error a malformed call raises.  When the equalizer and
    the bundles checked before [b] pass, and the required fields of [b]
    before [f] are floats, the call raises on [f]: the [KeyError] of [f]
    when it is missing, the malformed-payload exception of [b] when it is
    there and not a float.  The fields and bundles that come after are not
    looked at. *)
Theorem first_failure_decides
  (a : filter_args) (p : Player) (w : World) (json : pyval)
  (l1 l2 : list bundle) (b : bundle) (d inner : gmap string pyval)
  (pre post : list string) (f : string) :
  normalize_equalizer (equalizerjson a) = Ok json →
  json = PyNone ∨ equalizer_ok json →
  float_bundles a = l1 ++ b :: l2 →
  (∀ b', b' ∈ l1 → bundle_json b' = PyNone ∨ bundle_ok b') →
  bundle_json b = PyDict d →
  d !! bundle_name b = Some (PyDict inner) →
  bundle_fields b = pre ++ f :: post →
  (∀ f', f' ∈ pre → ∃ q, inner !! f' = Some (PyFloat q)) →
  (inner !! f = None →
   set_filters a p w = (Raise (KeyError (PyStr f)), p, w))
  ∧ (∀ v, inner !! f = Some v → is_float v = false →
          set_filters a p w = (Raise (Exception (bundle_error b)), p, w)).
Proof.
  intros Hnorm Heq Hbundles Hl1 Hd Hname Hfields Hpre.
  pose proof (any_not_float_first d inner (bundle_name b) pre post f Hname Hpre)
    as Hcheck.
  assert (∀ e, (∀ payload, merge_bundle payload b = Raise e) →
               set_filters a p w = (Raise e, p, w)) as Hraise.
  { intros e Hb. rewrite set_filters_run.
    rewrite (filters_payload_normalized a p json Hnorm), Hbundles.
    rewrite (merged_first_failure _ _ _ _ _ _ Heq Hl1 Hb). reflexivity. }
  split.
  - intros Hmissing. apply Hraise. intros payload.
    unfold merge_bundle. rewrite Hd, Hfields, Hcheck, Hmissing. reflexivity.
  - intros v Hv Hbad. apply Hraise. intros payload.
    unfold merge_bundle. rewrite Hd, Hfields, Hcheck, Hv, Hbad. reflexivity.
Qed.

Lemma first_failure_decides_witness :
  let pw := after 1 lobby [] in
  let tremolo : gmap string pyval :=
    {["tremolo" := PyDict {["frequency" := PyFloat 2]}]} in
  let karaoke : gmap string pyval :=
    {["karaoke" := PyDict {["level" := PyInt 1]}]} in
  set_filters
    {| equalizerjson := PyNone; karaokejson := PyNone;
       timescalejson := PyNone; tremolojson := PyDict tremolo;
       vibratojson := PyInt 3; rotationjson := PyNone;
       distortionjson := PyNone; channelMixjson := PyNone;
       lowPassjson := PyNone |} pw.1 pw.2
  = (Raise (KeyError (PyStr "depth")), pw.1, pw.2)
  ∧ set_filters
      {| equalizerjson := PyNone; karaokejson := PyDict karaoke;
         timescalejson := PyNone; tremolojson := PyNone;
         vibratojson := PyNone; rotationjson := PyNone;
         distortionjson := PyNone; channelMixjson := PyNone;
         lowPassjson := PyNone |} pw.1 pw.2
    = (Raise (Exception "Deformed karaokejson"), pw.1, pw.2).
Proof.
  intros pw tremolo karaoke. split.
  - match goal with
    | |- set_filters ?a _ _ = _ =>
        destruct (first_failure_decides a pw.1 pw.2 PyNone
                    [ {| bundle_name := "karaoke";
                         bundle_fields := ["level"; "monoLevel"; "filterBand"; "filterWidth"];
                         bundle_error := "Deformed karaokejson";
                         bundle_json := PyNone |};
                      {| bundle_name := "timescale";
                         bundle_fields := ["speed"; "pitch"; "rate"];
                         bundle_error := "Deformed timescalejson";
                         bundle_json := PyNone |} ]
                    (drop 3 (float_bundles a))
                    {| bundle_name := "tremolo";
                       bundle_fields := ["frequency"; "depth"];
                       bundle_error := "Deformed tremolojson";
                       bundle_json := PyDict tremolo |}
                    tremolo {["frequency" := PyFloat 2]}
                    ["frequency"] [] "depth") as [Hmissing _]
    end.
    + reflexivity.
    + by left.
    + reflexivity.
    + intros b' Hb'. rewrite !elem_of_cons, elem_of_nil in Hb'.
      destruct Hb' as [->|[->|[]]]; by left.
    + reflexivity.
    + reflexivity.
    + reflexivity.
    + intros f' Hf'. apply list_elem_of_singleton in Hf' as ->. by eexists.
    + apply Hmissing. reflexivity.
  - match goal with
    | |- set_filters ?a _ _ = _ =>
        destruct (first_failure_decides a pw.1 pw.2 PyNone
                    []
                    (drop 1 (float_bundles a))
                    {| bundle_name := "karaoke";
                       bundle_fields := ["level"; "monoLevel"; "filterBand"; "filterWidth"];
                       bundle_error := "Deformed karaokejson";
                       bundle_json := PyDict karaoke |}
                    karaoke {["level" := PyInt 1]}
                    [] ["monoLevel"; "filterBand"; "filterWidth"] "level")
          as [_ Hdeformed]
    end.
    + reflexivity.
    + by left.
    + reflexivity.
    + intros b' Hb'. by apply elem_of_nil in Hb'.
    + reflexivity.
    + reflexivity.
    + reflexivity.
    + intros f' Hf'. by apply elem_of_nil in Hf'.
    + apply (Hdeformed (PyInt 1)); reflexivity.
Defined.

(** ** Connection and position over runs *)

(** X20: after a [connect] that the host accepts and a [play] that goes
    ahead, the player is playing and the position read returns, whatever
    the player was before, a new one included; a [connect] that the host
    refuses changes no attribute. *)
Theorem connect_then_play
  (t : Playable) (replace : bool) (start end_ : Z) (now : Q) (e : exn)
  (p : Player) (w : World) :
  replace = true ∨ _source p = None →
  let joined := connect (Ok ()) p w in
  let playing := play (Track t) replace start end_ (player_of joined) (world_of joined) in
  is_connected (player_of joined) = Ok true
  ∧ is_playing (player_of playing) = Ok true
  ∧ (∃ x, position now (player_of playing) = Ok x ∧ (x <= duration t)%Q)
  ∧ connect (Raise e) p w
    = (Raise e, p,
       {| sent := sent w; players := players w;
          voice_requests := voice_requests w ++ [Some (channel p)];
          cleanups := cleanups w |}).
Proof.
  intros Hgo joined playing. subst joined playing.
  unfold connect, play, bind, get, lift, change_voice_state, modify,
    update_state, send, ret, player_of, world_of, position, is_playing,
    is_connected, is_paused, number, source_duration; simpl.
  destruct Hgo as [-> | Hidle]; [|rewrite ?Hidle; destruct replace]; simpl.
  all: split_and!; try done.
  all: eexists; (split; [reflexivity | apply py_min_le_r]).
Qed.

Lemma connect_then_play_witness :
  let pw := after 1 lobby [] in
  let joined := connect (Ok ()) pw.1 pw.2 in
  let playing := play (Track sourceA) false 0 0 (player_of joined) (world_of joined) in
  is_connected pw.1 = Raise (AttributeError "_connected")
  ∧ is_playing (player_of playing) = Ok true.
Proof.
  intros pw joined playing. split; [reflexivity|].
  destruct (connect_then_play sourceA false 0 0 5 IndexError pw.1 pw.2)
    as (_ & Hplaying & _).
  - by right.
  - exact Hplaying.
Defined.

(** X21: notifications, [move_to], [set_volume], [seek] and [set_filters]
    do not change what the position read gives; in particular [seek] moves
    nothing locally, the position follows only when the node reports. *)
Theorem position_kept (c : call) (now : Q) (p : Player) (w : World) :
  keeps_position c = true →
  position now (player_of (exec c p w)) = position now p.
Proof.
  destruct c as [| [data|data] | | | | | | | | |a]; intros Hc; try done.
  - simpl. unfold on_voice_server_update, bind, modify, get.
    by rewrite dispatch_keeps_player.
  - simpl. unfold on_voice_state_update, bind, modify, get, ret.
    destruct (channel_id data); try done. by rewrite dispatch_keeps_player.
  - simpl. by rewrite set_filters_keeps_player.
Qed.

Lemma position_kept_witness :
  let pw := after 1 lobby [Call_connect (Ok ());
                           Call_play (Track sourceA) true 0 0;
                           Call_update_state (Some 10000) (Some 2000)] in
  position 11 (player_of (exec (Call_seek 60000) pw.1 pw.2)) = Ok (30 # 10)%Q.
Proof.
  intros pw. rewrite (position_kept (Call_seek 60000) 11 pw.1 pw.2 eq_refl).
  reflexivity.
Defined.

Lemma exec_tracked (c : call) (p : Player) (w : World) :
  tracked p → tracked (player_of (exec c p w)).
Proof.
  unfold tracked.
  destruct c as [time pos| [data|data] | | | | | | | | |a]; intros Hp.
  - simpl. unfold discard, player_of.
    update_state_steps time pos p w; simpl; [done| |].
    + intros Hsrc. destruct (Hp Hsrc) as [_ Hlp]. by split.
    + intros Hsrc. split; by eexists.
  - simpl. unfold on_voice_server_update, bind, modify, get.
    by rewrite dispatch_keeps_player.
  - simpl. unfold on_voice_state_update, bind, modify, get, ret.
    destruct (channel_id data); try done. by rewrite dispatch_keeps_player.
  - run_call; done.
  - run_call; done.
  - run_call; done.
  - run_call; try done; intros Hsrc; split; by eexists.
  - run_call; done.
  - run_call; done.
  - run_call; done.
  - run_call; done.
  - simpl. by rewrite set_filters_keeps_player.
Qed.

(** X22: the [MISSING] sentinel never reaches the arithmetic.  After any
    calls on a new player the position read either returns, with a value
    that does not exceed the duration of the source when one is stored,
    or raises the [AttributeError] of a connected flag that was never
    assigned. *)
Theorem position_total_on_runs
  (id : nat) (c : VoiceChannel) (cs : list call) (now : Q) :
  let p := (after id c cs).1 in
  (∃ x, position now p = Ok x
        ∧ ∀ src, _source p = Some src → is_playing p = Ok true →
                 (x <= duration src)%Q)
  ∨ (position now p = Raise (AttributeError "_connected")
     ∧ _connected p = None).
Proof.
  intros p.
  assert (tracked p) as Htracked.
  { subst p. unfold after; simpl.
    match goal with
    | |- tracked (exec_all cs ?p0 ?w0).1 =>
        assert (tracked p0) as Hinit by (by intros Hsrc);
        generalize dependent p0; generalize w0
    end.
    induction cs as [|c' cs IH]; intros w p0 Hp0; [done|]. simpl.
    pose proof (exec_tracked c' p0 w Hp0) as Hstep. unfold player_of in Hstep.
    destruct (exec c' p0 w) as [[r p'] w']. by apply IH. }
  unfold tracked in Htracked.
  unfold position, is_playing, is_connected, number, source_duration.
  destruct (_connected p) as [[]|]; simpl; [| |by right].
  - destruct (_source p) as [src|]; simpl.
    + destruct Htracked as [[lu Hlu] [lp Hlp]]; [done|]. rewrite Hlu, Hlp; simpl.
      left. destruct (is_paused p); eexists; (split; [done|]);
        intros src' [= <-] _; apply py_min_le_r.
    + left. exists 0%Q. split; [done|]. intros src' Hsrc'. done.
  - left. exists 0%Q. split; [done|]. intros src' _ Hplaying. done.
Qed.

Lemma position_total_on_runs_witness :
  let cs := [Call_connect (Ok ());
             Call_play (Track sourceB) true 0 0;
             Call_update_state (Some 10000) (Some 29000)] in
  ∃ x, position 15 (after 1 lobby cs).1 = Ok x ∧ (x <= 30)%Q.
Proof.
  intros cs.
  destruct (position_total_on_runs 1 lobby cs 15) as [(x & Hx & Hcap) | [_ Hnone]].
  - exists x. split; [exact Hx|]. apply (Hcap sourceB); reflexivity.
  - discriminate Hnone.
Defined.
